(** * EcoFlow: zone partitioning, congestion aggregation and signal phases

    A shallow embedding of the three programs of the repository:
    - [extract_roads_zones.py]: OSM way parsing, the zone grid, the
      centroid-in-zone assignment;
    - [process.py]: clipping of the predicted congestion and the per-zone
      mean;
    - [app.py]: the per-road phase offset and the traffic-light phase.

    Numbers.  The congestion value read by [simulate_traffic_light], the
    predictions and the congestion column written by [np.clip] are
    binary64 floats, NaN and the infinities included, and are modelled by
    Rocq's primitive floats, so that the literals 0.7 and 0.3 are the
    doubles Python compares against and a NaN goes through the clip as it
    does in numpy.  The coordinates of the grid and the arithmetic of the
    mean are modelled over the rationals [Q]: the subdivision and the mean
    are taken as exact, on the numbers the floats stand for.  The grid
    block is given a second time with the arithmetic of binary64
    ([Binary64]), for the boxes on which rounding decides the outcome.
    Python integers are [Z].

    Library functions whose result the code only passes on (the projection,
    the centroid and the length of a geometry, the built-ins [int] and
    [float] on a string, [Polygon] on binary64 coordinates) are parameters
    of the definitions that call them. *)

From Stdlib Require Import ZArith QArith Qminmax Lqa List Bool Lia String Ascii.
From Stdlib Require Import DecimalString Floats.
From Stdlib Require DecimalZ DecimalPos.
From Stdlib Require Import Sorted Permutation.
From stdpp Require Import gmap strings.
Import ListNotations.

(** ** The interpreter's [hash]

    [phase_offset] calls Python's built-in [hash].  CPython hashes an [int]
    by reduction modulo the Mersenne prime 2^61 - 1, and a [str] by
    SipHash over the string's bytes (SipHash-1-3 since CPython 3.11, modelled
    here; SipHash-2-4 before), keyed by the hash secret of the process.  The secret is drawn when the interpreter starts: from the
    operating system's random source by default, all zero with
    [PYTHONHASHSEED=0], and from a linear congruential generator seeded by
    [n] with [PYTHONHASHSEED=n].  The secret is the only state [hash]
    depends on besides its argument, so it is an explicit parameter here. *)

Module PyHash.

Local Open Scope Z_scope.

Definition u64 (x : Z) : Z := x mod 2 ^ 64.
Definition u32 (x : Z) : Z := x mod 2 ^ 32.

Definition rotl (x b : Z) : Z :=
  u64 (Z.lor (Z.shiftl x b) (Z.shiftr x (64 - b))).

(** The state of SipHash: the four words v0..v3. *)
Record sipstate : Type := SipState { v0 : Z; v1 : Z; v2 : Z; v3 : Z }.

(** HALF_ROUND(a,b,c,d,s,t), returning the new (a,b,c,d). *)
Definition half_round (a b c d s t : Z) : Z * Z * Z * Z :=
  let a := u64 (a + b) in
  let c := u64 (c + d) in
  let b := Z.lxor (rotl b s) a in
  let d := Z.lxor (rotl d t) c in
  let a := rotl a 32 in
  (a, b, c, d).

(** SINGLE_ROUND: HALF_ROUND(v0,v1,v2,v3,13,16); HALF_ROUND(v2,v1,v0,v3,17,21). *)
Definition single_round (st : sipstate) : sipstate :=
  let '(a0, a1, a2, a3) := half_round (v0 st) (v1 st) (v2 st) (v3 st) 13 16 in
  let '(b2, b1, b0, b3) := half_round a2 a1 a0 a3 17 21 in
  SipState b0 b1 b2 b3.

(** A little-endian word from at most eight bytes. *)
Fixpoint le_word (bs : list Z) : Z :=
  match bs with
  | [] => 0
  | b :: rest => b + 256 * le_word rest
  end.

Definition absorb (st : sipstate) (m : Z) : sipstate :=
  let st1 := single_round (SipState (v0 st) (v1 st) (v2 st) (Z.lxor (v3 st) m)) in
  SipState (Z.lxor (v0 st1) m) (v1 st1) (v2 st1) (v3 st1).

(** The main loop: one round per full block of eight bytes; the result is
    the state and the remaining bytes.  [fuel] bounds the number of blocks
    and is the length of the input where it is called. *)
Fixpoint sip_blocks (fuel : nat) (st : sipstate) (bs : list Z) : sipstate * list Z :=
  match fuel with
  | O => (st, bs)
  | S fuel' =>
      if (8 <=? Z.of_nat (List.length bs)) then
        sip_blocks fuel' (absorb st (le_word (firstn 8 bs))) (skipn 8 bs)
      else (st, bs)
  end.

Definition siphash13 (k0 k1 : Z) (src : list Z) : Z :=
  let b := u64 (Z.shiftl (Z.of_nat (List.length src)) 56) in
  let st := SipState (Z.lxor k0 0x736f6d6570736575)
                     (Z.lxor k1 0x646f72616e646f6d)
                     (Z.lxor k0 0x6c7967656e657261)
                     (Z.lxor k1 0x7465646279746573) in
  let '(st, tail) := sip_blocks (List.length src) st src in
  let b := Z.lor b (le_word tail) in
  let st := absorb st b in
  let st := SipState (v0 st) (v1 st) (Z.lxor (v2 st) 0xff) (v3 st) in
  let st := single_round (single_round (single_round st)) in
  Z.lxor (Z.lxor (v0 st) (v1 st)) (Z.lxor (v2 st) (v3 st)).

(** The hash secret of a process: the two key words of SipHash. *)
Record secret : Type := Secret { k0 : Z; k1 : Z }.

(** [lcg_urandom]: the bytes CPython derives from [PYTHONHASHSEED=n]. *)
Fixpoint lcg_urandom (x : Z) (size : nat) : list Z :=
  match size with
  | O => []
  | S size' =>
      let x := u32 (u32 (x * 214013) + 2531011) in
      Z.land (Z.shiftr x 16) 0xff :: lcg_urandom x size'
  end.

Definition secret_of_seed (seed : Z) : secret :=
  if seed =? 0 then Secret 0 0
  else
    let bytes := lcg_urandom seed 24 in
    Secret (le_word (firstn 8 bytes)) (le_word (firstn 8 (skipn 8 bytes))).

(** A 64-bit word read as a signed [Py_hash_t]; -1 is reserved for errors
    and replaced by -2. *)
Definition to_hash_t (x : Z) : Z :=
  let s := if x <? 2 ^ 63 then x else x - 2 ^ 64 in
  if s =? -1 then -2 else s.

Definition bytes_of_string (s : string) : list Z :=
  map (fun c => Z.of_N (N_of_ascii c)) (list_ascii_of_string s).

(** [hash] of a [str] whose characters are below 256 (one byte each). *)
Definition hash_str (sec : secret) (s : string) : Z :=
  match bytes_of_string s with
  | [] => 0
  | bs => to_hash_t (siphash13 (k0 sec) (k1 sec) bs)
  end.

(** [hash] of an [int]: the value modulo 2^61 - 1, with the sign of the
    value, and -1 replaced by -2. *)
Definition hash_int (n : Z) : Z :=
  let h := Z.sgn n * (Z.abs n mod (2 ^ 61 - 1)) in
  if h =? -1 then -2 else h.

End PyHash.

(** ** app.py: phase offset and signal phase *)

Module App.

Local Open Scope Z_scope.
Local Set Warnings "-inexact-float".

(** The [id] column of the road table holds the OSM way id.  The extraction
    script stores it as the XML attribute text, a [str]; an integer column
    is the other type a table can hold there. *)
Inductive road_id : Type :=
| IdInt (n : Z)
| IdStr (s : string).

(** [hash(road_id)] in a process whose hash secret is [sec]. *)
Definition hash (sec : PyHash.secret) (x : road_id) : Z :=
  match x with
  | IdInt n => PyHash.hash_int n
  | IdStr s => PyHash.hash_str sec s
  end.

(** [def phase_offset(road_id, cycle_length=12): return hash(road_id) % cycle_length].
    Python's [%] takes the sign of the divisor, as [Z.modulo] does. *)
Definition phase_offset (sec : PyHash.secret) (x : road_id) (cycle_length : Z) : Z :=
  hash sec x mod cycle_length.

Inductive light : Type := Red | Yellow | Green.

(** [simulate_traffic_light(congestion, tick, offset)]. *)
Definition simulate_traffic_light (congestion : float) (tick offset : Z) : light :=
  let cycle_length := 12 in
  let pos_in_cycle := (tick + offset) mod cycle_length in
  if (0.7 <? congestion)%float then
    if pos_in_cycle <? 8 then Red
    else if pos_in_cycle <? 10 then Yellow
    else Green
  else if (0.3 <? congestion)%float then
    if pos_in_cycle <? 5 then Red
    else if pos_in_cycle <? 7 then Yellow
    else Green
  else
    if pos_in_cycle <? 3 then Red
    else if pos_in_cycle <? 5 then Yellow
    else Green.

Definition light_color_map (s : light) : list Z :=
  match s with
  | Red => [255; 0; 0]
  | Yellow => [255; 255; 0]
  | Green => [0; 255; 0]
  end.

(** A row of the road table as [build_road_layer] reads it. *)
Record road_row : Type := RoadRow { id : road_id; congestion : float }.

(** The [light_color] column computed by [build_road_layer(tick)]; the call
    [phase_offset(row['id'])] takes the default cycle length. *)
Definition build_road_layer (sec : PyHash.secret) (roads_gdf : list road_row)
    (tick : Z) : list (list Z) :=
  map (fun row =>
         let offset := phase_offset sec (id row) 12 in
         let state := simulate_traffic_light (congestion row) tick offset in
         light_color_map state)
      roads_gdf.

(** What a red/yellow/green split of the 12-tick cycle prescribes: red on
    [0, red_end), yellow on [red_end, yellow_end), green on [yellow_end, 12). *)
Definition follows_split (phase : light) (position red_end yellow_end : Z) : Prop :=
  (0 <= position < red_end -> phase = Red) /\
  (red_end <= position < yellow_end -> phase = Yellow) /\
  (yellow_end <= position < 12 -> phase = Green).

End App.

(** ** Exceptions

    The Python code signals failure by exceptions.  A computation that may
    raise returns a [result]; [Raise e] carries the exception class. *)

Module Py.

Inductive exn : Type :=
| KeyError        (* a missing dictionary key *)
| IndexError      (* an index outside an array *)
| ValueError      (* a value a library refuses: a negative number of samples, a
                     geometry column that does not exist, a text that is no number *)
| GEOSException.  (* shapely: a coordinate sequence GEOS refuses; not a KeyError *)

Inductive result (A : Type) : Type :=
| Ok (a : A)
| Raise (e : exn).
Arguments Ok {A} a.
Arguments Raise {A} e.

Definition bind {A B : Type} (c : result A) (k : A -> result B) : result B :=
  match c with
  | Ok a => k a
  | Raise e => Raise e
  end.

#[global] Instance result_bind : MBind result := fun A B k c => bind c k.
#[global] Instance result_ret : MRet result := @Ok.

(** A list comprehension [[f(x) for x in l]] whose body may raise: the
    first exception, in iteration order, ends it. *)
Fixpoint comprehension {A B : Type} (f : A -> result B) (l : list A) : result (list B) :=
  match l with
  | [] => Ok []
  | x :: rest =>
      y ← f x;
      ys ← comprehension f rest;
      Ok (y :: ys)
  end.

(** A [for x in l:] loop over a state [s]. *)
Fixpoint for_in {A S : Type} (l : list A) (body : A -> S -> result S) (s : S) : result S :=
  match l with
  | [] => Ok s
  | x :: rest =>
      s' ← body x s;
      for_in rest body s'
  end.

(** [range(n)]: empty when [n <= 0]. *)
Definition range (n : Z) : list Z := seqZ 0 n.

(** [a[i]] on a sequence: a negative index counts from the end, an index
    outside the sequence raises IndexError. *)
Definition getitem {A : Type} (a : list A) (i : Z) : result A :=
  let k := if (i <? 0)%Z then (Z.of_nat (List.length a) + i)%Z else i in
  if (k <? 0)%Z then Raise IndexError
  else match a !! Z.to_nat k with
       | Some x => Ok x
       | None => Raise IndexError
       end.

(** [str(i)] of an integer. *)
Definition str (i : Z) : string := NilZero.string_of_int (Z.to_int i).

End Py.

(** ** Plane geometry: shapely's [Polygon.contains(Point)]

    A polygon is the ring of corners handed to [Polygon(coords)]; shapely
    closes the ring.  [contains] is the DE-9IM predicate: the point lies in
    the interior of the polygon, so a point of the boundary is not
    contained.  The interior test is the winding number of the ring around
    the point, computed edge by edge without division. *)

Module Geometry.

Local Open Scope Q_scope.

Definition point : Type := Q * Q.
Definition polygon : Type := list point.
Definition LineString : Type := list point.

Definition Qltb (a b : Q) : bool :=
  match a ?= b with Lt => true | _ => false end.

(** Twice the signed area of the triangle a, b, p: positive when p is to
    the left of the directed line from a to b. *)
Definition cross (a b p : point) : Q :=
  (fst b - fst a) * (snd p - snd a) - (fst p - fst a) * (snd b - snd a).

Definition on_segment (p a b : point) : bool :=
  Qeq_bool (cross a b p) 0
  && Qle_bool (Qmin (fst a) (fst b)) (fst p) && Qle_bool (fst p) (Qmax (fst a) (fst b))
  && Qle_bool (Qmin (snd a) (snd b)) (snd p) && Qle_bool (snd p) (Qmax (snd a) (snd b)).

(** The edges of the closed ring: consecutive corners, and the last corner
    back to the first. *)
Definition edges (ring : polygon) : list (point * point) :=
  match ring with
  | [] => []
  | first :: rest => combine ring (rest ++ [first])
  end.

Definition on_boundary (ring : polygon) (p : point) : bool :=
  existsb (fun e => on_segment p (fst e) (snd e)) (edges ring).

(** The contribution of one edge to the winding number around p: +1 for an
    upward crossing with p on its left, -1 for a downward crossing with p on
    its right. *)
Definition turn (p : point) (e : point * point) : Z :=
  let (a, b) := e in
  if Qle_bool (snd a) (snd p) then
    if Qltb (snd p) (snd b) && Qltb 0 (cross a b p) then 1%Z else 0%Z
  else
    if Qle_bool (snd b) (snd p) && Qltb (cross a b p) 0 then (-1)%Z else 0%Z.

Definition winding (ring : polygon) (p : point) : Z :=
  fold_right Z.add 0%Z (map (turn p) (edges ring)).

Definition contains (ring : polygon) (p : point) : bool :=
  negb (on_boundary ring p) && negb (winding ring p =? 0)%Z.


End Geometry.

(** ** extract_roads_zones.py *)

Module ExtractRoadsZones.

Import Py Geometry.
Local Open Scope Q_scope.
Local Set Warnings "-inexact-float".

(** The elements of an OSM file that [parse_osm_roads] reads, each with
    the attributes the parser reads from it: the id and the coordinates of
    a node, as the numbers [float] makes of them; the id of a way, the
    key and value of its tags, the references of its nodes. *)
Record osm_node : Type := OsmNode { node_id : string; lon : Q; lat : Q }.
Record osm_way : Type :=
  OsmWay { way_id : string; way_tags : list (string * string); way_nds : list string }.
Record osm_file : Type := OsmFile { file_nodes : list osm_node; file_ways : list osm_way }.

(** A row of the road table. *)
Record road : Type := Road { id : string; highway : string; geometry : LineString }.

(** A dictionary comprehension [{k: v for ...}]: a later entry replaces an
    earlier one with the same key. *)
Definition dict_of {V : Type} (entries : list (string * V)) : gmap string V :=
  fold_left (fun d kv => <[fst kv := snd kv]> d) entries ∅.

(** [d[k]]: KeyError when the key is missing. *)
Definition subscript {V : Type} (d : gmap string V) (k : string) : result V :=
  match d !! k with
  | Some v => Ok v
  | None => Raise KeyError
  end.

(** [LineString(coords)]: GEOS builds a line from no point (the empty line)
    or from two or more, and refuses a single point. *)
Definition mkLineString (coords : list point) : result LineString :=
  if (List.length coords =? 1)%nat then Raise GEOSException else Ok coords.

(** The body of the [try:] block for one way. *)
Definition try_body (nodes : gmap string point) (tags : gmap string string)
    (w : osm_way) : result road :=
  coords ← comprehension (subscript nodes) (way_nds w);
  line ← mkLineString coords;
  hw ← subscript tags "highway";
  Ok (Road (way_id w) hw line).

(** One iteration of [for way in root.findall('way')]: only [KeyError] is
    caught, and the way is then skipped. *)
Definition parse_way (nodes : gmap string point) (w : osm_way)
    (roads : list road) : result (list road) :=
  let tags := dict_of (way_tags w) in
  if decide (is_Some (tags !! "highway")) then
    match try_body nodes tags w with
    | Ok r => Ok (roads ++ [r])
    | Raise KeyError => Ok roads
    | Raise e => Raise e
    end
  else Ok roads.

(** [gpd.GeoDataFrame(roads, geometry='geometry')] on the list of row
    dictionaries: the table of these rows.  Without any row the table has
    no column at all, and naming its geometry column raises ValueError. *)
Definition GeoDataFrame (roads : list road) : result (list road) :=
  match roads with
  | [] => Raise ValueError
  | _ :: _ => Ok roads
  end.

(** [parse_osm_roads]: the node table, the loop over the ways, and the road
    table made from the list [roads]. *)
Definition parse_osm_roads (f : osm_file) : result (list road) :=
  let nodes := dict_of (map (fun n => (node_id n, (lon n, lat n))) (file_nodes f)) in
  roads ← for_in (file_ways f) (parse_way nodes) [];
  GeoDataFrame roads.

Local Set Warnings "-register-all".

(** *** The elements as ElementTree gives them

    An [osm_node] or [osm_way] is an element that carries the attributes the
    parser reads, with coordinates that [float] accepts.  [Xml] is the parse
    on elements as they come: a tag, the attributes and the children, every
    attribute being read with [attrib[...]], which raises KeyError when the
    attribute is missing.  The tags of a way and the references of its
    nodes are read before the [try:], the id of the way inside it.  The
    file is taken as read: [ET.parse] has returned its tree. *)

Inductive element : Type :=
  Element (tag : string) (attributes : list (string * string)) (children : list element).

Definition tag_of (e : element) : string :=
  let 'Element t _ _ := e in t.

(** [e.attrib], a dictionary. *)
Definition attrib (e : element) : gmap string string :=
  let 'Element _ a _ := e in dict_of a.

(** [e.findall(t)]: the children of [e] with tag [t], in document order. *)
Definition findall (e : element) (t : string) : list element :=
  let 'Element _ _ c := e in filter (fun x => tag_of x = t) c.

Module Xml.

Section Float.

(** The built-in [float] on a string is a library function. *)
Variable float : string -> result Q.

(** One entry of the node table: the key, then the two coordinates. *)
Definition node_entry (node : element) : result (string * point) :=
  k ← subscript (attrib node) "id";
  x ← (s ← subscript (attrib node) "lon"; float s);
  y ← (s ← subscript (attrib node) "lat"; float s);
  Ok (k, (x, y)).

(** One entry of [tags]. *)
Definition tag_entry (tag : element) : result (string * string) :=
  k ← subscript (attrib tag) "k";
  v ← subscript (attrib tag) "v";
  Ok (k, v).

(** The body of the [try:] block. *)
Definition try_body (nodes : gmap string point) (tags : gmap string string)
    (way : element) (nds : list string) : result road :=
  coords ← comprehension (subscript nodes) nds;
  line ← mkLineString coords;
  way_id ← subscript (attrib way) "id";
  hw ← subscript tags "highway";
  Ok (Road way_id hw line).

(** One iteration of [for way in root.findall('way')]. *)
Definition parse_way (nodes : gmap string point) (way : element)
    (roads : list road) : result (list road) :=
  entries ← comprehension tag_entry (findall way "tag");
  let tags := dict_of entries in
  if decide (is_Some (tags !! "highway")) then
    nds ← comprehension (fun nd => subscript (attrib nd) "ref") (findall way "nd");
    match try_body nodes tags way nds with
    | Ok r => Ok (roads ++ [r])
    | Raise KeyError => Ok roads
    | Raise e => Raise e
    end
  else Ok roads.

(** [parse_osm_roads] on the root element of the file. *)
Definition parse_osm_roads (root : element) : result (list road) :=
  entries ← comprehension node_entry (findall root "node");
  let nodes := dict_of entries in
  roads ← for_in (findall root "way") (parse_way nodes) [];
  GeoDataFrame roads.

End Float.

End Xml.

(** *** The zone grid *)

(** A row of the zone table: the [zone_id] column and the [geometry]
    column, a polygon. *)
Record zone : Type := Zone { zone_id : string; polygon_of : polygon }.

(** [np.linspace(start, stop, num)] with the default [endpoint=True]. *)
Definition linspace (start stop : Q) (num : Z) : result (list Q) :=
  if (num <? 0)%Z then Raise ValueError
  else
    let div := (num - 1)%Z in
    let delta := stop - start in
    let y := map inject_Z (range num) in
    let y :=
      if (0 <? div)%Z then
        let step := delta / inject_Z div in
        if Qeq_bool step 0
        then map (fun k => k / inject_Z div * delta) y
        else map (fun k => k * step) y
      else map (fun k => k * delta) y in
    let y := map (fun v => v + start) y in
    Ok (if (1 <? num)%Z then removelast y ++ [stop] else y).

(** The name [f'z{i}_{j}']. *)
Definition zone_name (i j : Z) : string :=
  ("z" ++ str i ++ "_" ++ str j)%string.

(** One iteration of the inner loop: the four corners of cell (i, j) and
    the zone appended to [zones]. *)
Definition cell_body (x_grid y_grid : list Q) (i j : Z) (zones : list zone)
    : result (list zone) :=
  xi ← getitem x_grid i;
  yj ← getitem y_grid j;
  xi1 ← getitem x_grid (i + 1)%Z;
  yj1 ← getitem y_grid (j + 1)%Z;
  let coords := [(xi, yj); (xi1, yj); (xi1, yj1); (xi, yj1)] in
  Ok (zones ++ [Zone (zone_name i j) coords]).

(** The bounding box expanded by [buffer] on every side. *)
Definition expand (total_bounds : Q * Q * Q * Q) (buffer : Q) : Q * Q * Q * Q :=
  let '(minx, miny, maxx, maxy) := total_bounds in
  (minx - buffer, miny - buffer, maxx + buffer, maxy + buffer).

(** The grid block of [main], as a function of the values that reach it:
    the bounds of the road table and the three locals [buffer],
    [num_cells_x], [num_cells_y]. *)
Definition make_zones (total_bounds : Q * Q * Q * Q) (buffer : Q)
    (num_cells_x num_cells_y : Z) : result (list zone) :=
  let '(minx, miny, maxx, maxy) := expand total_bounds buffer in
  x_grid ← linspace minx maxx (num_cells_x + 1)%Z;
  y_grid ← linspace miny maxy (num_cells_y + 1)%Z;
  for_in (range num_cells_x)
         (fun i zones => for_in (range num_cells_y) (cell_body x_grid y_grid i) zones)
         [].

(** [main] sets [buffer = 0.01] and [num_cells_x, num_cells_y = 10, 10]. *)
Definition main_zones (total_bounds : Q * Q * Q * Q) : result (list zone) :=
  make_zones total_bounds (1 # 100) 10 10.

(** *** The grid block on binary64

    The bounds of the road table, the buffer and the boundaries of
    [np.linspace] are binary64 numbers.  [Binary64] is the grid block with
    the arithmetic of binary64, for the boxes on which rounding decides the
    outcome; shapely's [Polygon] is a library function, which may refuse
    the ring it is given. *)

Module Binary64.

(** An integer of [np.arange] as a float. *)
Definition float_of_int (k : Z) : float := of_uint63 (Uint63.of_Z k).

(** [np.linspace(start, stop, num)] with the default [endpoint=True]. *)
Definition linspace (start stop : float) (num : Z) : result (list float) :=
  if (num <? 0)%Z then Raise ValueError
  else
    let div := (num - 1)%Z in
    let delta := (stop - start)%float in
    let y := map float_of_int (range num) in
    let y :=
      if (0 <? div)%Z then
        let step := (delta / float_of_int div)%float in
        if (step =? 0)%float
        then map (fun k => (k / float_of_int div * delta)%float) y
        else map (fun k => (k * step)%float) y
      else map (fun k => (k * delta)%float) y in
    let y := map (fun v => (v + start)%float) y in
    Ok (if (1 <? num)%Z then removelast y ++ [stop] else y).

(** The bounding box expanded by [buffer] on every side. *)
Definition expand (total_bounds : float * float * float * float) (buffer : float)
    : float * float * float * float :=
  let '(minx, miny, maxx, maxy) := total_bounds in
  ((minx - buffer)%float, (miny - buffer)%float,
   (maxx + buffer)%float, (maxy + buffer)%float).

Section Shapely.

Context {polygon : Type}.
Variable Polygon : list (float * float) -> result polygon.

(** One iteration of the inner loop; a zone is its id and its polygon. *)
Definition cell_body (x_grid y_grid : list float) (i j : Z)
    (zones : list (string * polygon)) : result (list (string * polygon)) :=
  xi ← getitem x_grid i;
  yj ← getitem y_grid j;
  xi1 ← getitem x_grid (i + 1)%Z;
  yj1 ← getitem y_grid (j + 1)%Z;
  let coords := [(xi, yj); (xi1, yj); (xi1, yj1); (xi, yj1)] in
  zone_poly ← Polygon coords;
  Ok (zones ++ [(zone_name i j, zone_poly)]).

Definition make_zones (total_bounds : float * float * float * float) (buffer : float)
    (num_cells_x num_cells_y : Z) : result (list (string * polygon)) :=
  let '(minx, miny, maxx, maxy) := expand total_bounds buffer in
  x_grid ← linspace minx maxx (num_cells_x + 1)%Z;
  y_grid ← linspace miny maxy (num_cells_y + 1)%Z;
  for_in (range num_cells_x)
         (fun i zones => for_in (range num_cells_y) (cell_body x_grid y_grid i) zones)
         [].

(** [main] sets [buffer = 0.01] and [num_cells_x, num_cells_y = 10, 10]. *)
Definition main_zones (total_bounds : float * float * float * float)
    : result (list (string * polygon)) :=
  make_zones total_bounds 0.01%float 10 10.

End Shapely.

End Binary64.

(** *** Assignment *)

(** [assign_zone(point, zones_gdf)]: the first zone, in table order, whose
    polygon contains the point; [None] when there is none. *)
Fixpoint assign_zone (p : point) (zones_gdf : list zone) : option string :=
  match zones_gdf with
  | [] => None
  | zone :: rest =>
      if contains (polygon_of zone) p then Some (zone_id zone)
      else assign_zone p rest
  end.

Section Projection.

(** [to_crs(epsg=32643)] on a coordinate pair and shapely's [centroid] of
    a line are library functions; the assignment is stated for any. *)
Variable to_crs : point -> point.
Variable centroid : LineString -> point.

Definition zones_proj (zones_gdf : list zone) : list zone :=
  map (fun z => Zone (zone_id z) (map to_crs (polygon_of z))) zones_gdf.

(** The [zone_id] column: [roads_proj['centroid'].apply(lambda p: assign_zone(p, zones_proj))]. *)
Definition assign_roads (roads_master : list road) (zones_gdf : list zone)
    : list (option string) :=
  map (fun r => assign_zone (centroid (map to_crs (geometry r))) (zones_proj zones_gdf))
      roads_master.

End Projection.

(** *** The master road table *)

(** [DataFrame.drop_duplicates(subset=...)] with the default [keep='first']:
    a row is dropped when an earlier row of the table, kept or not, is the
    same on the subset; [earlier] holds the rows already passed. *)
Fixpoint drop_duplicates_from {A : Type} (same : A -> A -> bool)
    (earlier rows : list A) : list A :=
  match rows with
  | [] => []
  | r :: rest =>
      (if existsb (same r) earlier then [] else [r])
      ++ drop_duplicates_from same (r :: earlier) rest
  end.

Definition drop_duplicates {A : Type} (same : A -> A -> bool) (rows : list A) : list A :=
  drop_duplicates_from same [] rows.

(** Equality on the [id] column. *)
Definition same_id (r1 r2 : road) : bool := bool_decide (id r1 = id r2).

(** Equality on the [geometry] column: the same coordinates in the same
    order. *)
Fixpoint same_coords (l1 l2 : list point) : bool :=
  match l1, l2 with
  | [], [] => true
  | p1 :: r1, p2 :: r2 =>
      Qeq_bool (fst p1) (fst p2) && Qeq_bool (snd p1) (snd p2) && same_coords r1 r2
  | _, _ => false
  end.

Definition same_geometry (r1 r2 : road) : bool :=
  same_coords (geometry r1) (geometry r2).

(** Lines 53 and 54 of [main]: duplicates by id, then by geometry. *)
Definition drop_duplicate_roads (roads_master : list road) : list road :=
  drop_duplicates same_geometry (drop_duplicates same_id roads_master).

(** [roads_master.total_bounds]: the least and greatest x and y over all
    the coordinates of the table; [None] stands for the all-NaN bounds of a
    table without any coordinate. *)
Definition total_bounds (roads_master : list road) : option (Q * Q * Q * Q) :=
  match flat_map geometry roads_master with
  | [] => None
  | (x, y) :: rest =>
      Some (fold_left
              (fun b p =>
                 let '(minx, miny, maxx, maxy) := b in
                 (Qmin minx (fst p), Qmin miny (snd p),
                  Qmax maxx (fst p), Qmax maxy (snd p)))
              rest (x, y, x, y))
  end.


End ExtractRoadsZones.

(** ** process.py *)

Module Process.

Local Open Scope Q_scope.

(** The predictions and the stored road congestion are binary64 floats,
    NaN included.  The mean of a group is taken over the exact values of
    its numbers: a row is seen by the mean as a [road_row], whose congestion
    is a rational. *)

(** A row of the road table as the mean sees it: the [zone_id] column
    written by the extraction script (null when the road is unassigned) and
    the value of the [congestion] column. *)
Record road_row : Type := RoadRow { zone_id : option string; congestion : Q }.

(** A row of the zone table after the merge. *)
Record zone_row : Type := ZoneRow { zone : string; zone_congestion : Q }.


(** numpy's maximum and minimum of the clip loop on floats: a NaN first
    argument is returned as it is; otherwise [a > b ? a : b] and
    [a < b ? a : b]. *)
Definition npy_max (a b : float) : float :=
  if is_nan a then a else if (b <? a)%float then a else b.

Definition npy_min (a b : float) : float :=
  if is_nan a then a else if (a <? b)%float then a else b.

(** [np.clip(a, a_min, a_max)] on one element: [min(max(a, a_min), a_max)]. *)
Definition clip1 (a a_min a_max : float) : float := npy_min (npy_max a a_min) a_max.



(** The number a binary64 value stands for; 0 for NaN and the infinities,
    which have none. *)
Definition SF2Q (x : spec_float) : Q :=
  match x with
  | S754_finite s m e =>
      let magnitude :=
        match e with
        | Z0 => inject_Z (Zpos m)
        | Zpos p => inject_Z (Zpos m * 2 ^ Zpos p)
        | Zneg p => Zpos m # 2 ^ p
        end in
      if s then - magnitude else magnitude
  | _ => 0
  end.

Definition value (c : float) : Q := SF2Q (Prim2SF c).


(** One row added to the groups: a row whose key is null belongs to no
    group. *)
Definition group_step (groups : gmap string (list Q)) (r : road_row)
    : gmap string (list Q) :=
  match zone_id r with
  | None => groups
  | Some k => <[k := default [] (groups !! k) ++ [congestion r]]> groups
  end.

(** [groupby('zone_id')['congestion']]: the congestion values of each key,
    in row order. *)
Definition groupby (roads_gdf : list road_row) : gmap string (list Q) :=
  fold_left group_step roads_gdf ∅.

Definition sum (l : list Q) : Q := fold_right Qplus 0 l.

(** [.mean()] of one group. *)
Definition mean (l : list Q) : Q := sum l / inject_Z (Z.of_nat (List.length l)).

(** [zones_congestion]: the mean of every group. *)
Definition zones_congestion (roads_gdf : list road_row) : gmap string Q :=
  mean <$> groupby roads_gdf.

(** [zones_gdf.merge(zones_congestion, on='zone_id', how='left')]: every
    zone row is kept; its congestion is missing when no group has its id. *)
Definition merge_left (zones_gdf : list string) (zc : gmap string Q)
    : list (string * option Q) :=
  map (fun z => (z, zc !! z)) zones_gdf.

(** [fillna(0)] on the congestion column. *)
Definition fillna (rows : list (string * option Q)) (v : Q) : list zone_row :=
  map (fun r => ZoneRow (fst r) (default v (snd r))) rows.

(** Lines 56 to 59. *)
Definition aggregate (roads_gdf : list road_row) (zones_gdf : list string)
    : list zone_row :=
  fillna (merge_left zones_gdf (zones_congestion roads_gdf)) 0.


(** The congestion values of the roads assigned to zone [z], in row order. *)
Definition assigned (z : string) (roads_gdf : list road_row) : list Q :=
  map congestion (filter (fun r => zone_id r = Some z) roads_gdf).


(** A float between 0 and 1, by the comparisons of binary64; false of NaN. *)
Definition unit_float (c : float) : Prop :=
  (0 <=? c)%float = true /\ (c <=? 1)%float = true.

(** *** Features *)

(** [s.split(sep)] for a one-character separator: the pieces between the
    occurrences of the separator, the empty pieces included; never an empty
    list. *)
Fixpoint split (sep : ascii) (s : string) : list string :=
  match s with
  | EmptyString => [EmptyString]
  | String c rest =>
      if Ascii.eqb c sep then EmptyString :: split sep rest
      else match split sep rest with
           | piece :: pieces => String c piece :: pieces
           | [] => [String c EmptyString]
           end
  end.

Section Features.

(** The built-in [int] on a string and the [length] of a geometry are
    library functions; [prepare_features] is stated for any. *)
Context {Row : Type}.
Variable int : string -> Py.result Z.
Variable road_length : Row -> Q.

(** One row of the feature table: the columns [hour], [minute] and
    [road_length]. *)
Definition prepare_features (gdf : list Row) (predict_time : string)
    : Py.result (list (Z * Z * Q)) :=
  hour ← (piece ← Py.getitem (split ":" predict_time) 0; int piece);
  minute ← (piece ← Py.getitem (split ":" predict_time) 1; int piece);
  Py.Ok (map (fun r => (hour, minute, road_length r)) gdf).

End Features.


End Process.

(** ** Terms of the statements

    The objects the properties are stated with: the rectangle of a grid
    cell, the boundaries of a linear subdivision, the zones of a grid in
    generation order, the node table of a file, the aggregate of a zone. *)

Module Terms.

Import Py Geometry ExtractRoadsZones.
Local Open Scope Q_scope.
Local Set Warnings "-inexact-float".

(** The ring [Polygon(coords)] of the cell between x0, x1 and y0, y1. *)
Definition rect (x0 x1 y0 y1 : Q) : polygon :=
  [(x0, y0); (x1, y0); (x1, y1); (x0, y1)].

(** The i-th boundary of the linear subdivision of [start, stop] into n parts. *)
Definition subdivision (start stop : Q) (n i : Z) : Q :=
  start + inject_Z i * ((stop - start) / inject_Z n).

(** The array before its last entry is overwritten. *)
Definition linspace_raw (start stop : Q) (n : Z) : list Q :=
  let delta := stop - start in
  let y := map inject_Z (range (n + 1)) in
  let step := delta / inject_Z n in
  map (fun v => v + start)
      (if Qeq_bool step 0
       then map (fun k => k / inject_Z n * delta) y
       else map (fun k => k * step) y).

(** The zone of cell (i, j) over the boundaries [xs] and [ys]. *)
Definition cell (xs ys : Z -> Q) (i j : Z) : zone :=
  Zone (zone_name i j) (rect (xs i) (xs (i + 1)%Z) (ys j) (ys (j + 1)%Z)).

(** The zones in generation order: i outermost, j innermost. *)
Definition cells (xs ys : Z -> Q) (nx ny : Z) : list zone :=
  flat_map (fun i => map (cell xs ys i) (range ny)) (range nx).






(** The node table of a file. *)
Definition nodes_of (ns : list osm_node) : gmap string point :=
  dict_of (map (fun n => (node_id n, (lon n, lat n))) ns).

(** The aggregate of one zone: the mean of its roads, 0 without roads. *)
Definition zone_mean (roads_gdf : list Process.road_row) (z : string) : Q :=
  match Process.assigned z roads_gdf with
  | [] => 0
  | l => Process.mean l
  end.

(** The light that follows in the cycle red, yellow, green, red. *)
Definition next_light (s : App.light) : App.light :=
  match s with
  | App.Red => App.Yellow
  | App.Yellow => App.Green
  | App.Green => App.Red
  end.

Definition light_eqb (a b : App.light) : bool :=
  match a, b with
  | App.Red, App.Red | App.Yellow, App.Yellow | App.Green, App.Green => true
  | _, _ => false
  end.

(** The states of one road on the 12 ticks that start at [tick]. *)
Definition cycle_window (c : float) (tick offset : Z) : list App.light :=
  map (fun k => App.simulate_traffic_light c (tick + k)%Z offset) (seqZ 0 12).

(** How many of the states are [s]. *)
Definition count_light (s : App.light) (l : list App.light) : nat :=
  length (List.filter (light_eqb s) l).


(** The light as a function of the position in the cycle. *)
Definition phase_at (c : float) (pos : Z) : App.light :=
  if (0.7 <? c)%float then
    if (pos <? 8)%Z then App.Red else if (pos <? 10)%Z then App.Yellow else App.Green
  else if (0.3 <? c)%float then
    if (pos <? 5)%Z then App.Red else if (pos <? 7)%Z then App.Yellow else App.Green
  else
    if (pos <? 3)%Z then App.Red else if (pos <? 5)%Z then App.Yellow else App.Green.

(** The way carries a [highway] tag. *)
Definition tagged (w : osm_way) : bool :=
  bool_decide (is_Some (dict_of (way_tags w) !! "highway"%string)).

(** The coordinates of the referenced nodes, when all are in the table. *)
Fixpoint resolve (nodes : gmap string point) (nds : list string) : option (list point) :=
  match nds with
  | [] => Some []
  | nd :: rest =>
      match nodes !! nd, resolve nodes rest with
      | Some c, Some cs => Some (c :: cs)
      | _, _ => None
      end
  end.

(** The road made from a way: a tagged way whose nodes are all in the
    table. *)
Definition road_of (nodes : gmap string point) (w : osm_way) : option road :=
  match dict_of (way_tags w) !! "highway"%string, resolve nodes (way_nds w) with
  | Some hw, Some coords => Some (Road (way_id w) hw coords)
  | _, _ => None
  end.

(** The way ends the parse: tagged, all nodes in the table, exactly one
    node. *)
Definition aborts (nodes : gmap string point) (w : osm_way) : bool :=
  tagged w &&
  match resolve nodes (way_nds w) with
  | Some [_] => true
  | _ => false
  end.


(** The elements of a file whose records carry their attributes; [show]
    writes a coordinate as the text of its attribute. *)
Definition node_element (show : Q -> string) (n : osm_node) : element :=
  Element "node" [("id", node_id n); ("lon", show (lon n)); ("lat", show (lat n))]%string [].

Definition tag_element (kv : string * string) : element :=
  Element "tag" [("k", fst kv); ("v", snd kv)]%string [].

Definition nd_element (ref : string) : element :=
  Element "nd" [("ref", ref)]%string [].

Definition way_element (w : osm_way) : element :=
  Element "way" [("id", way_id w)]%string
          (map tag_element (way_tags w) ++ map nd_element (way_nds w)).

Definition osm_element (show : Q -> string) (f : osm_file) : element :=
  Element "osm" []
          (map (node_element show) (file_nodes f) ++ map way_element (file_ways f)).

(** The road is assigned to a zone of the zone table. *)
Definition in_zone_table (zones_gdf : list string) (r : Process.road_row) : bool :=
  match Process.zone_id r with
  | Some z => bool_decide (z ∈ zones_gdf)
  | None => false
  end.


End Terms.

(** * Properties *)

(** ** Binary64 comparisons

    [<?] and [<=?] on primitive floats are specified by [SFcompare] on
    [spec_float].  The two facts the band analysis needs are that [<=?]
    excludes the converse [<?], and that [<=?] is transitive. *)

Module Float64.

Local Open Scope Z_scope.

Lemma compare_cont_Eq_antisym (p q : positive) :
  Pos.compare_cont Eq q p = CompOpp (Pos.compare_cont Eq p q).
Proof. exact (Pos.compare_antisym p q). Qed.

Lemma SFcompare_antisym (x y : spec_float) :
  SFcompare y x = option_map CompOpp (SFcompare x y).
Proof.
  destruct x as [sx|sx| |sx mx ex], y as [sy|sy| |sy my ey]; simpl;
    try destruct sx; try destruct sy; simpl; try reflexivity.
  - rewrite (Z.compare_antisym ex ey).
    destruct (ex ?= ey); simpl; try reflexivity.
    now rewrite compare_cont_Eq_antisym, CompOpp_involutive.
  - rewrite (Z.compare_antisym ex ey).
    destruct (ex ?= ey); simpl; try reflexivity.
    now rewrite compare_cont_Eq_antisym.
Qed.

Lemma SFleb_not_SFltb (x y : spec_float) :
  SFleb x y = true -> SFltb y x = false.
Proof.
  unfold SFleb, SFltb. rewrite (SFcompare_antisym x y).
  destruct (SFcompare x y) as [[ | | ]|]; simpl; congruence.
Qed.

Lemma SFltb_SFleb (x y : spec_float) :
  SFltb x y = true -> SFleb x y = true.
Proof.
  unfold SFleb, SFltb. destruct (SFcompare x y) as [[ | | ]|]; congruence.
Qed.

(** The order of two finite floats of the same sign is the lexicographic
    order on (exponent, mantissa); [lex_le] states it on integers. *)

Definition lex_le (e1 : Z) (m1 : positive) (e2 : Z) (m2 : positive) : Prop :=
  e1 < e2 \/ (e1 = e2 /\ (m1 <= m2)%positive).

Lemma cmp_pos_le (e1 e2 : Z) (m1 m2 : positive) :
  match (match e1 ?= e2 with
         | Eq => Pos.compare_cont Eq m1 m2 | Lt => Lt | Gt => Gt end) with
  | Lt | Eq => true | Gt => false
  end = true <-> lex_le e1 m1 e2 m2.
Proof.
  unfold lex_le. change (Pos.compare_cont Eq m1 m2) with (m1 ?= m2)%positive.
  destruct (Z.compare_spec e1 e2); destruct (Pos.compare_spec m1 m2);
    split; intros; try reflexivity; try discriminate; try lia.
Qed.

Lemma cmp_neg_le (e1 e2 : Z) (m1 m2 : positive) :
  match (match e1 ?= e2 with
         | Eq => CompOpp (Pos.compare_cont Eq m1 m2) | Lt => Gt | Gt => Lt end) with
  | Lt | Eq => true | Gt => false
  end = true <-> lex_le e2 m2 e1 m1.
Proof.
  unfold lex_le. change (Pos.compare_cont Eq m1 m2) with (m1 ?= m2)%positive.
  destruct (Z.compare_spec e1 e2); destruct (Pos.compare_spec m1 m2);
    simpl; split; intros; try reflexivity; try discriminate; try lia.
Qed.

Lemma lex_le_trans e1 m1 e2 m2 e3 m3 :
  lex_le e1 m1 e2 m2 -> lex_le e2 m2 e3 m3 -> lex_le e1 m1 e3 m3.
Proof. unfold lex_le. lia. Qed.

Lemma SFleb_trans (x y z : spec_float) :
  SFleb x y = true -> SFleb y z = true -> SFleb x z = true.
Proof.
  unfold SFleb.
  destruct x as [sx|sx| |sx mx ex], y as [sy|sy| |sy my ey],
           z as [sz|sz| |sz mz ez]; simpl;
    try destruct sx; try destruct sy; try destruct sz; simpl;
    try congruence.
  - rewrite !cmp_neg_le. intros H1 H2. exact (lex_le_trans _ _ _ _ _ _ H2 H1).
  - rewrite !cmp_pos_le. apply lex_le_trans.
Qed.

Definition lex_lt (e1 : Z) (m1 : positive) (e2 : Z) (m2 : positive) : Prop :=
  e1 < e2 \/ (e1 = e2 /\ (m1 < m2)%positive).

Lemma cmp_pos_lt (e1 e2 : Z) (m1 m2 : positive) :
  match (match e1 ?= e2 with
         | Eq => Pos.compare_cont Eq m1 m2 | Lt => Lt | Gt => Gt end) with
  | Lt => true | _ => false
  end = true <-> lex_lt e1 m1 e2 m2.
Proof.
  unfold lex_lt. change (Pos.compare_cont Eq m1 m2) with (m1 ?= m2)%positive.
  destruct (Z.compare_spec e1 e2); destruct (Pos.compare_spec m1 m2);
    split; intros; try reflexivity; try discriminate; try lia.
Qed.

Lemma cmp_neg_lt (e1 e2 : Z) (m1 m2 : positive) :
  match (match e1 ?= e2 with
         | Eq => CompOpp (Pos.compare_cont Eq m1 m2) | Lt => Gt | Gt => Lt end) with
  | Lt => true | _ => false
  end = true <-> lex_lt e2 m2 e1 m1.
Proof.
  unfold lex_lt. change (Pos.compare_cont Eq m1 m2) with (m1 ?= m2)%positive.
  destruct (Z.compare_spec e1 e2); destruct (Pos.compare_spec m1 m2);
    simpl; split; intros; try reflexivity; try discriminate; try lia.
Qed.

Lemma lex_lt_le_trans e1 m1 e2 m2 e3 m3 :
  lex_lt e1 m1 e2 m2 -> lex_le e2 m2 e3 m3 -> lex_lt e1 m1 e3 m3.
Proof. unfold lex_lt, lex_le. lia. Qed.

Lemma lex_le_lt_trans e1 m1 e2 m2 e3 m3 :
  lex_le e1 m1 e2 m2 -> lex_lt e2 m2 e3 m3 -> lex_lt e1 m1 e3 m3.
Proof. unfold lex_lt, lex_le. lia. Qed.

Lemma SFltb_SFleb_trans (x y z : spec_float) :
  SFltb x y = true -> SFleb y z = true -> SFltb x z = true.
Proof.
  unfold SFleb, SFltb.
  destruct x as [sx|sx| |sx mx ex], y as [sy|sy| |sy my ey],
           z as [sz|sz| |sz mz ez]; simpl;
    try destruct sx; try destruct sy; try destruct sz; simpl;
    try congruence.
  - rewrite !cmp_neg_lt, cmp_neg_le. intros H1 H2.
    exact (lex_le_lt_trans _ _ _ _ _ _ H2 H1).
  - rewrite !cmp_pos_lt, cmp_pos_le. apply lex_lt_le_trans.
Qed.

Lemma SFleb_SFltb_trans (x y z : spec_float) :
  SFleb x y = true -> SFltb y z = true -> SFltb x z = true.
Proof.
  unfold SFleb, SFltb.
  destruct x as [sx|sx| |sx mx ex], y as [sy|sy| |sy my ey],
           z as [sz|sz| |sz mz ez]; simpl;
    try destruct sx; try destruct sy; try destruct sz; simpl;
    try congruence.
  - rewrite !cmp_neg_lt, cmp_neg_le. intros H1 H2.
    exact (lex_lt_le_trans _ _ _ _ _ _ H2 H1).
  - rewrite !cmp_pos_lt, cmp_pos_le. apply lex_le_lt_trans.
Qed.

(** Two floats that are not NaN are comparable, and a float that is not
    NaN equals itself. *)
Lemma SFcompare_Some (x y : spec_float) :
  x <> S754_nan -> y <> S754_nan -> exists c, SFcompare x y = Some c.
Proof.
  destruct x as [sx|sx| |sx mx ex], y as [sy|sy| |sy my ey]; simpl;
    intros Hx Hy; try congruence; eauto.
Qed.

Lemma SFcompare_refl (x : spec_float) : x <> S754_nan -> SFcompare x x = Some Eq.
Proof.
  destruct x as [s|s| |s m e]; simpl; intros H; try congruence.
  - now destruct s.
  - rewrite Z.compare_refl. change (Pos.compare_cont Eq m m) with (m ?= m)%positive.
    rewrite Pos.compare_refl. now destruct s.
Qed.

Lemma SFeqb_refl_iff (x : spec_float) : SFeqb x x = false <-> x = S754_nan.
Proof.
  unfold SFeqb. split.
  - intros H. destruct x as [s|s| |s m e]; try reflexivity;
      rewrite SFcompare_refl in H by discriminate; discriminate.
  - now intros ->.
Qed.

(** When [x < y] fails for two floats that are not NaN, [y <= x] holds. *)
Lemma SFltb_false_SFleb (x y : spec_float) :
  x <> S754_nan -> y <> S754_nan -> SFltb x y = false -> SFleb y x = true.
Proof.
  intros Hx Hy. unfold SFltb, SFleb. rewrite (SFcompare_antisym x y).
  destruct (SFcompare_Some x y Hx Hy) as [c ->]. now destruct c.
Qed.

Lemma SFleb_antisym (x y : spec_float) :
  SFleb x y = true -> SFleb y x = true -> SFeqb x y = true.
Proof.
  unfold SFleb, SFeqb. rewrite (SFcompare_antisym x y).
  destruct (SFcompare x y) as [[ | | ]|]; simpl; congruence.
Qed.

Lemma SFleb_not_nan (x y : spec_float) :
  SFleb x y = true -> x <> S754_nan /\ y <> S754_nan.
Proof.
  unfold SFleb. intros H. split; intros ->; [|destruct x]; discriminate.
Qed.

(** A float that compares equal to a finite float is that float. *)
Lemma SFeqb_finite (x : spec_float) (s : bool) (m : positive) (e : Z) :
  SFeqb x (S754_finite s m e) = true -> x = S754_finite s m e.
Proof.
  unfold SFeqb. destruct x as [sx|sx| |sx mx ex]; simpl;
    try destruct sx; try destruct s; simpl; try discriminate.
  - destruct (Z.compare_spec ex e); try discriminate. subst ex.
    change (Pos.compare_cont Eq mx m) with (mx ?= m)%positive.
    destruct (Pos.compare_spec mx m); try discriminate. now subst mx.
  - destruct (Z.compare_spec ex e); try discriminate. subst ex.
    change (Pos.compare_cont Eq mx m) with (mx ?= m)%positive.
    destruct (Pos.compare_spec mx m); try discriminate. now subst mx.
Qed.



Local Open Scope float_scope.

Lemma leb_not_ltb (x y : float) : (x <=? y) = true -> (y <? x) = false.
Proof. rewrite leb_spec, ltb_spec. apply SFleb_not_SFltb. Qed.

Lemma ltb_leb (x y : float) : (x <? y) = true -> (x <=? y) = true.
Proof. rewrite leb_spec, ltb_spec. apply SFltb_SFleb. Qed.

Lemma leb_trans (x y z : float) :
  (x <=? y) = true -> (y <=? z) = true -> (x <=? z) = true.
Proof. rewrite !leb_spec. apply SFleb_trans. Qed.

Lemma ltb_not_leb (x y : float) : (x <? y) = true -> (y <=? x) = false.
Proof.
  intros H. destruct (y <=? x) eqn:E; [|reflexivity].
  apply leb_not_ltb in E. congruence.
Qed.

Lemma ltb_leb_trans (x y z : float) :
  (x <? y) = true -> (y <=? z) = true -> (x <? z) = true.
Proof. rewrite !ltb_spec, leb_spec. apply SFltb_SFleb_trans. Qed.

Lemma leb_ltb_trans (x y z : float) :
  (x <=? y) = true -> (y <? z) = true -> (x <? z) = true.
Proof. rewrite !ltb_spec, leb_spec. apply SFleb_SFltb_trans. Qed.

Lemma is_nan_spec (x : float) : is_nan x = true <-> Prim2SF x = S754_nan.
Proof.
  unfold is_nan. rewrite FloatAxioms.eqb_spec. split; intros H.
  - apply SFeqb_refl_iff. now apply negb_true_iff.
  - apply negb_true_iff. now apply SFeqb_refl_iff.
Qed.

Lemma is_nan_false (x : float) : is_nan x = false <-> Prim2SF x <> S754_nan.
Proof.
  rewrite <- is_nan_spec. destruct (is_nan x); split; congruence.
Qed.

Lemma eqb_refl (x : float) : is_nan x = false -> (x =? x) = true.
Proof. unfold is_nan. now intros H%negb_false_iff. Qed.

Lemma leb_not_nan (x y : float) :
  (x <=? y) = true -> is_nan x = false /\ is_nan y = false.
Proof. rewrite leb_spec, !is_nan_false. apply SFleb_not_nan. Qed.

Lemma ltb_false_leb (x y : float) :
  is_nan x = false -> is_nan y = false -> (x <? y) = false -> (y <=? x) = true.
Proof. rewrite ltb_spec, leb_spec, !is_nan_false. apply SFltb_false_SFleb. Qed.

Lemma leb_antisym (x y : float) :
  (x <=? y) = true -> (y <=? x) = true -> (x =? y) = true.
Proof. rewrite !leb_spec, FloatAxioms.eqb_spec. apply SFleb_antisym. Qed.

Lemma leb_refl (x : float) : is_nan x = false -> (x <=? x) = true.
Proof.
  rewrite is_nan_false, leb_spec. intros H. unfold SFleb.
  now rewrite SFcompare_refl.
Qed.

End Float64.

(** ** app.py *)

Module AppFacts.

Import App.
Local Open Scope Z_scope.
Local Set Warnings "-inexact-float".

(** The offset lies in [0, 12) whatever the identifier and the secret. *)
Lemma phase_offset_range (sec : PyHash.secret) (x : road_id) :
  0 <= phase_offset sec x 12 < 12.
Proof. unfold phase_offset. apply Z.mod_pos_bound. lia. Qed.

(** For an integer identifier the offset does not depend on the secret. *)
Lemma phase_offset_int_stable (sec1 sec2 : PyHash.secret) (n : Z) :
  phase_offset sec1 (IdInt n) 12 = phase_offset sec2 (IdInt n) 12.
Proof. reflexivity. Qed.

(** Within one process (one secret) the offset is a function of the id. *)
Lemma phase_offset_same_process (sec : PyHash.secret) (x y : road_id) :
  x = y -> phase_offset sec x 12 = phase_offset sec y 12.
Proof. now intros ->. Qed.

(** C1.  The offset of a road is [hash(road_id) % 12] with the
    interpreter's [hash], which for a string id depends on the hash secret
    of the process: for the way id ["1"], a process started with
    PYTHONHASHSEED=1 computes offset 11 and one started with
    PYTHONHASHSEED=2 computes offset 8.  The offset of a string id is
    therefore not the same across processes. *)
Theorem phase_offset_depends_on_process :
  phase_offset (PyHash.secret_of_seed 1) (IdStr "1") 12 = 11 /\
  phase_offset (PyHash.secret_of_seed 2) (IdStr "1") 12 = 8 /\
  phase_offset (PyHash.secret_of_seed 1) (IdStr "1") 12
    <> phase_offset (PyHash.secret_of_seed 2) (IdStr "1") 12.
Proof. vm_compute. repeat split; congruence. Qed.

Lemma position_range (tick offset : Z) : 0 <= (tick + offset) mod 12 < 12.
Proof. apply Z.mod_pos_bound. lia. Qed.

(** The three branches of [simulate_traffic_light] follow their splits. *)
Lemma split_of_tests (pos red_end yellow_end : Z) :
  red_end <= yellow_end ->
  follows_split
    (if pos <? red_end then Red else if pos <? yellow_end then Yellow else Green)
    pos red_end yellow_end.
Proof.
  unfold follows_split. intros Hle.
  destruct (Z.ltb_spec pos red_end), (Z.ltb_spec pos yellow_end);
    repeat split; intros; try reflexivity; lia.
Qed.

Lemma high_band (c : float) (tick offset : Z) :
  (0.7 <? c)%float = true ->
  follows_split (simulate_traffic_light c tick offset) ((tick + offset) mod 12) 8 10.
Proof.
  intros H. unfold simulate_traffic_light. rewrite H. apply split_of_tests; lia.
Qed.

Lemma medium_band (c : float) (tick offset : Z) :
  (0.3 <? c)%float = true -> (c <=? 0.7)%float = true ->
  follows_split (simulate_traffic_light c tick offset) ((tick + offset) mod 12) 5 7.
Proof.
  intros H1 H2. unfold simulate_traffic_light.
  rewrite (Float64.leb_not_ltb _ _ H2), H1. apply split_of_tests; lia.
Qed.

Lemma low_band (c : float) (tick offset : Z) :
  (c <=? 0.3)%float = true ->
  follows_split (simulate_traffic_light c tick offset) ((tick + offset) mod 12) 3 5.
Proof.
  intros H. unfold simulate_traffic_light.
  assert (H7 : (c <=? 0.7)%float = true)
    by (apply (Float64.leb_trans _ _ _ H); reflexivity).
  rewrite (Float64.leb_not_ltb _ _ H7), (Float64.leb_not_ltb _ _ H).
  apply split_of_tests; lia.
Qed.

(** C2.  With position = (tick + offset) mod 12, which lies in [0, 12):
    a congestion above 0.7 gives red on [0,8), yellow on [8,10), green on
    [10,12); a congestion above 0.3 and at most 0.7 gives red on [0,5),
    yellow on [5,7), green on [7,12); a congestion of at most 0.3 gives red
    on [0,3), yellow on [3,5), green on [5,12).  The comparisons are strict,
    so 0.7 itself is in the medium band and 0.3 itself in the low band. *)
Theorem simulate_traffic_light_bands (c : float) (tick offset : Z) :
  let position := (tick + offset) mod 12 in
  let phase := simulate_traffic_light c tick offset in
  0 <= position < 12 /\
  ((0.7 <? c)%float = true -> follows_split phase position 8 10) /\
  ((0.3 <? c)%float = true /\ (c <=? 0.7)%float = true ->
     follows_split phase position 5 7) /\
  ((c <=? 0.3)%float = true -> follows_split phase position 3 5) /\
  follows_split (simulate_traffic_light 0.7 tick offset) position 5 7 /\
  follows_split (simulate_traffic_light 0.3 tick offset) position 3 5.
Proof.
  cbv zeta. split; [apply position_range|].
  split; [apply high_band|].
  split; [intros [H1 H2]; now apply medium_band|].
  split; [apply low_band|].
  split; [apply medium_band; reflexivity | apply low_band; reflexivity].
Qed.

(** The example of the specification, through the theorem: congestion 0.8
    at tick 8 with offset 0 is at position 8 of the high band, yellow. *)
Lemma simulate_traffic_light_bands_witness :
  (0.7 <? 0.8)%float = true /\ simulate_traffic_light 0.8 8 0 = Yellow.
Proof.
  split; [reflexivity|].
  apply (proj1 (proj2 (proj1 (proj2 (simulate_traffic_light_bands 0.8 8 0)) eq_refl))).
  vm_compute. split; congruence.
Defined.

End AppFacts.

(** ** process.py *)

Module ProcessFacts.

Import Process Terms.
Local Open Scope Q_scope.
Local Set Warnings "-inexact-float".

(** *** Clipping *)

Lemma zero_lt_one : (0 <? 1)%float = true.
Proof. reflexivity. Qed.

(** A NaN prediction passes through both comparisons of the clip. *)
Lemma clip1_nan (v lo hi : float) : is_nan v = true -> clip1 v lo hi = v.
Proof. intros H. unfold clip1, npy_min, npy_max. now rewrite H, H. Qed.

Lemma clip1_low (v : float) : (v <=? 0)%float = true -> clip1 v 0 1 = 0%float.
Proof.
  intros H. destruct (Float64.leb_not_nan v 0 H) as [Hn _].
  unfold clip1, npy_max. rewrite Hn, (Float64.leb_not_ltb v 0 H). reflexivity.
Qed.

Lemma clip1_high (v : float) : (1 <=? v)%float = true -> clip1 v 0 1 = 1%float.
Proof.
  intros H. destruct (Float64.leb_not_nan 1 v H) as [_ Hn].
  unfold clip1, npy_max, npy_min.
  rewrite Hn, (Float64.ltb_leb_trans 0 1 v zero_lt_one H), Hn.
  now rewrite (Float64.leb_not_ltb 1 v H).
Qed.

Lemma clip1_mid (v : float) :
  (0 <? v)%float = true -> (v <? 1)%float = true -> clip1 v 0 1 = v.
Proof.
  intros H0 H1. destruct (Float64.leb_not_nan 0 v (Float64.ltb_leb 0 v H0)) as [_ Hn].
  unfold clip1, npy_max, npy_min. now rewrite Hn, H0, Hn, H1.
Qed.

(** The three outcomes of the clip of a prediction that is not NaN. *)
Lemma clip1_cases (v : float) :
  is_nan v = false ->
  ((v <=? 0)%float = true /\ clip1 v 0 1 = 0%float) \/
  ((0 <? v)%float = true /\ (v <? 1)%float = true /\ clip1 v 0 1 = v) \/
  ((1 <=? v)%float = true /\ clip1 v 0 1 = 1%float).
Proof.
  intros Hn. destruct (0 <? v)%float eqn:H0.
  - destruct (v <? 1)%float eqn:H1.
    + right. left. split; [reflexivity|]. split; [reflexivity|]. now apply clip1_mid.
    + right. right.
      assert (H : (1 <=? v)%float = true)
        by (apply Float64.ltb_false_leb; [exact Hn|reflexivity|exact H1]).
      split; [exact H|now apply clip1_high].
  - left.
    assert (H : (v <=? 0)%float = true)
      by (apply Float64.ltb_false_leb; [reflexivity|exact Hn|exact H0]).
    split; [exact H|now apply clip1_low].
Qed.

Lemma clip1_unit_float (v : float) : is_nan v = false -> unit_float (clip1 v 0 1).
Proof.
  intros Hn. destruct (clip1_cases v Hn) as [[_ ->]|[[H0 [H1 ->]]|[_ ->]]].
  - split; reflexivity.
  - split; now apply Float64.ltb_leb.
  - split; reflexivity.
Qed.

Lemma unit_float_not_nan (c : float) : unit_float c -> is_nan c = false.
Proof. intros [H _]. exact (proj2 (Float64.leb_not_nan 0 c H)). Qed.

(** A prediction between 0 and 1 is stored as a float that compares equal
    to it: the same float, except for the zero of negative sign, which is
    stored as the zero of positive sign. *)
Lemma clip1_inside (v : float) :
  (0 <=? v)%float = true -> (v <=? 1)%float = true ->
  (clip1 v 0 1 =? v)%float = true /\ ((0 <? v)%float = true -> clip1 v 0 1 = v).
Proof.
  intros H0 H1. destruct (Float64.leb_not_nan 0 v H0) as [_ Hn].
  destruct (clip1_cases v Hn) as [[H ->]|[[_ [_ ->]]|[H ->]]].
  - split; [now apply Float64.leb_antisym|].
    intros Hlt. rewrite (Float64.leb_not_ltb v 0 H) in Hlt. discriminate.
  - split; [now apply Float64.eqb_refl|reflexivity].
  - assert (E : (v =? 1)%float = true) by now apply Float64.leb_antisym.
    split; [now apply Float64.leb_antisym|]. intros _.
    rewrite FloatAxioms.eqb_spec in E.
    change (Prim2SF 1) with (S754_finite false 4503599627370496 (-52)) in E.
    apply Float64.SFeqb_finite in E. symmetry. now apply Prim2SF_inj.
Qed.






(** *** Grouping and the mean *)

Lemma assigned_cons (z : string) (r : road_row) (rs : list road_row) :
  assigned z (r :: rs) =
  if decide (zone_id r = Some z) then congestion r :: assigned z rs else assigned z rs.
Proof.
  unfold assigned. rewrite filter_cons. destruct (decide (zone_id r = Some z)); reflexivity.
Qed.

Lemma assigned_app (z : string) (rs1 rs2 : list road_row) :
  assigned z (rs1 ++ rs2) = assigned z rs1 ++ assigned z rs2.
Proof. unfold assigned. now rewrite filter_app, map_app. Qed.

(** The group of a key after folding the rows into [groups]. *)
Lemma fold_group_lookup (rs : list road_row) (groups : gmap string (list Q)) (z : string) :
  fold_left group_step rs groups !! z =
  match assigned z rs with
  | [] => groups !! z
  | l => Some (default [] (groups !! z) ++ l)
  end.
Proof.
  revert groups. induction rs as [|r rs IH]; intros groups; [reflexivity|].
  simpl. rewrite IH, assigned_cons. unfold group_step.
  destruct (zone_id r) as [k|] eqn:Hk.
  - destruct (decide (Some k = Some z)) as [[= ->]|Hne].
    + rewrite lookup_insert_eq. simpl.
      destruct (assigned z rs); [reflexivity|].
      now rewrite <- app_assoc.
    + rewrite lookup_insert_ne by congruence. reflexivity.
  - destruct (decide (None = Some z)); [discriminate|reflexivity].
Qed.

Lemma groupby_lookup (roads_gdf : list road_row) (z : string) :
  groupby roads_gdf !! z =
  match assigned z roads_gdf with [] => None | l => Some l end.
Proof.
  unfold groupby. rewrite fold_group_lookup, lookup_empty. reflexivity.
Qed.

Lemma aggregate_zone_mean (roads_gdf : list road_row) (zones_gdf : list string) :
  aggregate roads_gdf zones_gdf = map (fun z => ZoneRow z (zone_mean roads_gdf z)) zones_gdf.
Proof.
  unfold aggregate, fillna, merge_left. rewrite map_map. apply map_ext.
  intros z. simpl. f_equal. unfold zones_congestion, zone_mean.
  rewrite lookup_fmap, groupby_lookup.
  destruct (assigned z roads_gdf); reflexivity.
Qed.





(** *** The unit interval *)














End ProcessFacts.

(** ** The containment predicate on rectangles *)

Module GeometryFacts.

Import Geometry Terms.
Local Open Scope Q_scope.

Lemma Qle_bool_true (a b : Q) : a <= b -> Qle_bool a b = true.
Proof. apply Qle_bool_iff. Qed.

Lemma Qle_bool_false (a b : Q) : b < a -> Qle_bool a b = false.
Proof.
  intros H. destruct (Qle_bool a b) eqn:E; [|reflexivity].
  apply Qle_bool_iff in E. lra.
Qed.

Lemma Qltb_true (a b : Q) : a < b -> Qltb a b = true.
Proof. unfold Qltb. destruct (Qcompare_spec a b); intros; try reflexivity; lra. Qed.

Lemma Qltb_false (a b : Q) : b <= a -> Qltb a b = false.
Proof. unfold Qltb. destruct (Qcompare_spec a b); intros; try reflexivity; lra. Qed.

Lemma Qltb_iff (a b : Q) : Qltb a b = true <-> a < b.
Proof.
  split; [|apply Qltb_true].
  unfold Qltb. destruct (Qcompare_spec a b); intros; try discriminate; assumption.
Qed.

Lemma Qeq_bool_true (a b : Q) : a == b -> Qeq_bool a b = true.
Proof. apply Qeq_bool_iff. Qed.

Lemma Qeq_bool_false (a b : Q) : a < b \/ b < a -> Qeq_bool a b = false.
Proof.
  intros H. destruct (Qeq_bool a b) eqn:E; [|reflexivity].
  apply Qeq_bool_iff in E. lra.
Qed.

Lemma Qle_bool_min (a b p : Q) :
  Qle_bool (Qmin a b) p = Qle_bool a p || Qle_bool b p.
Proof.
  apply eq_true_iff_eq. rewrite orb_true_iff, !Qle_bool_iff. apply Q.min_le_iff.
Qed.

Lemma Qle_bool_max (a b p : Q) :
  Qle_bool p (Qmax a b) = Qle_bool p a || Qle_bool p b.
Proof.
  apply eq_true_iff_eq. rewrite orb_true_iff, !Qle_bool_iff. apply Q.max_le_iff.
Qed.

(** Decide the comparisons of a goal from the hypotheses, by arithmetic. *)
Ltac settle_tests :=
  repeat match goal with
  | |- context [Qle_bool ?a ?b] =>
      first [ rewrite (Qle_bool_true a b) by nra
            | rewrite (Qle_bool_false a b) by nra ]
  | |- context [Qltb ?a ?b] =>
      first [ rewrite (Qltb_true a b) by nra
            | rewrite (Qltb_false a b) by nra ]
  | |- context [Qeq_bool ?a ?b] =>
      first [ rewrite (Qeq_bool_true a b) by nra
            | rewrite (Qeq_bool_false a b) by nra ]
  end.

(** The position of a number relative to an interval with distinct ends. *)
Lemma five_cases (x0 x1 p : Q) :
  x0 < x1 -> p < x0 \/ p == x0 \/ (x0 < p /\ p < x1) \/ p == x1 \/ x1 < p.
Proof.
  intros H. destruct (Q_dec p x0) as [[?|?]|?]; auto.
  destruct (Q_dec p x1) as [[?|?]|?]; auto.
Qed.

Lemma contains_rect_value (x0 x1 y0 y1 px py : Q) :
  x0 < x1 -> y0 < y1 ->
  contains (rect x0 x1 y0 y1) (px, py)
  = Qltb x0 px && Qltb px x1 && Qltb y0 py && Qltb py y1.
Proof.
  intros Hx Hy.
  unfold contains, on_boundary, winding, rect, edges, turn, on_segment, cross.
  cbn [combine app map existsb fold_right fst snd].
  rewrite !Qle_bool_min, !Qle_bool_max.
  destruct (five_cases x0 x1 px Hx) as [?|[?|[[? ?]|[?|?]]]];
    destruct (five_cases y0 y1 py Hy) as [?|[?|[[? ?]|[?|?]]]];
    settle_tests; reflexivity.
Qed.


(** The interior of the cell is the open rectangle. *)
Lemma contains_rect_iff (x0 x1 y0 y1 px py : Q) :
  x0 < x1 -> y0 < y1 ->
  contains (rect x0 x1 y0 y1) (px, py) = true
  <-> (x0 < px /\ px < x1) /\ (y0 < py /\ py < y1).
Proof.
  intros Hx Hy. rewrite (contains_rect_value _ _ _ _ _ _ Hx Hy).
  rewrite !andb_true_iff, !Qltb_iff. tauto.
Qed.


(** A contained point is never on the boundary. *)
Lemma contains_not_on_boundary (ring : polygon) (p : point) :
  contains ring p = true -> on_boundary ring p = false.
Proof.
  unfold contains. rewrite andb_true_iff, negb_true_iff. tauto.
Qed.

Lemma on_boundary_not_contains (ring : polygon) (p : point) :
  on_boundary ring p = true -> contains ring p = false.
Proof. unfold contains. now intros ->. Qed.

End GeometryFacts.

(** ** extract_roads_zones.py *)

Module ExtractFacts.

Import Py Geometry ExtractRoadsZones Terms GeometryFacts.
Local Open Scope Q_scope.

(** *** Loops *)

Lemma for_in_app {A S : Type} (l1 l2 : list A) (body : A -> S -> result S) (s : S) :
  for_in (l1 ++ l2) body s = (s' ← for_in l1 body s; for_in l2 body s').
Proof.
  revert s. induction l1 as [|x l1 IH]; intros s; simpl; [reflexivity|].
  destruct (body x s) as [s'|e]; simpl; [apply IH|reflexivity].
Qed.

(** A loop whose body appends [g x] to the state appends them all, in order. *)
Lemma for_in_append {A B : Type} (l : list A) (body : A -> list B -> result (list B))
    (g : A -> list B) (s : list B) :
  (forall x s', x ∈ l -> body x s' = Ok (s' ++ g x)) ->
  for_in l body s = Ok (s ++ flat_map g l).
Proof.
  revert s. induction l as [|x l IH]; intros s H; simpl.
  - now rewrite app_nil_r.
  - rewrite (H x s) by constructor. simpl.
    rewrite IH by (intros; apply H; now constructor).
    now rewrite app_assoc.
Qed.

Lemma elem_of_range (n i : Z) : i ∈ range n <-> (0 <= i < n)%Z.
Proof. unfold range. rewrite elem_of_seqZ. lia. Qed.

Lemma range_lookup (n i : Z) : (0 <= i < n)%Z -> range n !! Z.to_nat i = Some i.
Proof. intros H. unfold range. apply lookup_seqZ. split; lia. Qed.

(** *** The grid of [np.linspace] *)

Lemma subdivision_first (start stop : Q) (n : Z) : subdivision start stop n 0 == start.
Proof. unfold subdivision. change (inject_Z 0) with 0. ring. Qed.

Lemma subdivision_last (start stop : Q) (n : Z) :
  (0 < n)%Z -> subdivision start stop n n == stop.
Proof.
  intros Hn. unfold subdivision.
  assert (~ inject_Z n == 0).
  { change 0 with (inject_Z 0). rewrite inject_Z_injective. lia. }
  field. assumption.
Qed.

Lemma subdivision_step (start stop : Q) (n i : Z) :
  (0 < n)%Z -> start < stop ->
  subdivision start stop n i < subdivision start stop n (i + 1).
Proof.
  intros Hn Hlt. unfold subdivision. rewrite inject_Z_plus.
  change (inject_Z 1) with 1.
  assert (Hpos : 0 < (stop - start) / inject_Z n).
  { apply Qlt_shift_div_l.
    - change 0 with (inject_Z 0). rewrite <- Zlt_Qlt. exact Hn.
    - lra. }
  lra.
Qed.

Lemma subdivision_mono (start stop : Q) (n i k : Z) :
  (0 < n)%Z -> start < stop -> (i <= k)%Z ->
  subdivision start stop n i <= subdivision start stop n k.
Proof.
  intros Hn Hlt Hik. unfold subdivision.
  assert (Hpos : 0 < (stop - start) / inject_Z n).
  { apply Qlt_shift_div_l.
    - change 0 with (inject_Z 0). rewrite <- Zlt_Qlt. exact Hn.
    - lra. }
  assert (Hq : inject_Z i <= inject_Z k) by (rewrite <- Zle_Qle; exact Hik).
  nra.
Qed.

Lemma linspace_unfold (start stop : Q) (n : Z) :
  (0 < n)%Z ->
  linspace start stop (n + 1) = Ok (removelast (linspace_raw start stop n) ++ [stop]).
Proof.
  intros Hn. unfold linspace, linspace_raw.
  replace (n + 1 - 1)%Z with n by lia.
  destruct (Z.ltb_spec (n + 1) 0); [lia|].
  destruct (Z.ltb_spec 0 n); [|lia].
  destruct (Z.ltb_spec 1 (n + 1)); [|lia].
  reflexivity.
Qed.

Lemma linspace_raw_length (start stop : Q) (n : Z) :
  length (linspace_raw start stop n) = Z.to_nat (n + 1).
Proof.
  unfold linspace_raw, range.
  destruct (Qeq_bool _ 0); rewrite !length_map; apply length_seqZ.
Qed.

Lemma linspace_raw_lookup (start stop : Q) (n i : Z) :
  (0 < n)%Z -> (0 <= i <= n)%Z ->
  exists v, linspace_raw start stop n !! Z.to_nat i = Some v /\
            v == subdivision start stop n i.
Proof.
  intros Hn Hi. unfold linspace_raw.
  assert (Hnz : ~ inject_Z n == 0).
  { change 0 with (inject_Z 0). rewrite inject_Z_injective. lia. }
  assert (Hr : range (n + 1) !! Z.to_nat i = Some i) by (apply range_lookup; lia).
  destruct (Qeq_bool ((stop - start) / inject_Z n) 0) eqn:E.
  - apply Qeq_bool_iff in E.
    exists (inject_Z i / inject_Z n * (stop - start) + start). split.
    + change (@map Q Q) with (@fmap list _ Q Q). change (@map Z Q) with (@fmap list _ Z Q).
      rewrite !list_lookup_fmap, Hr. reflexivity.
    + unfold subdivision. field. exact Hnz.
  - exists (inject_Z i * ((stop - start) / inject_Z n) + start). split.
    + change (@map Q Q) with (@fmap list _ Q Q). change (@map Z Q) with (@fmap list _ Z Q).
      rewrite !list_lookup_fmap, Hr. reflexivity.
    + unfold subdivision. ring.
Qed.

(** [np.linspace(start, stop, n + 1)] returns n + 1 values, the boundaries
    of the linear subdivision. *)
Lemma linspace_grid (start stop : Q) (n : Z) :
  (0 < n)%Z ->
  exists grid, linspace start stop (n + 1) = Ok grid /\
    length grid = Z.to_nat (n + 1) /\
    forall i, (0 <= i <= n)%Z ->
      exists v, grid !! Z.to_nat i = Some v /\ v == subdivision start stop n i.
Proof.
  intros Hn. rewrite (linspace_unfold start stop n Hn).
  pose proof (linspace_raw_length start stop n) as Hlen.
  set (raw := linspace_raw start stop n) in *.
  assert (Hrl : length (removelast raw) = Z.to_nat n).
  { rewrite removelast_firstn_len, length_take, Hlen. lia. }
  eexists. split; [reflexivity|]. split.
  { rewrite length_app, Hrl. simpl. lia. }
  intros i Hi. destruct (Z.eq_dec i n) as [->|Hne].
  - exists stop. split.
    + rewrite lookup_app_r by lia. rewrite Hrl, Nat.sub_diag. reflexivity.
    + symmetry. now apply subdivision_last.
  - destruct (linspace_raw_lookup start stop n i Hn Hi) as [v [Hv Hq]].
    exists v. split; [|exact Hq].
    rewrite lookup_app_l by lia.
    rewrite removelast_firstn_len, lookup_take_lt by (rewrite Hlen; lia).
    exact Hv.
Qed.


(** *** The zones of the grid *)

Lemma getitem_ok {A : Type} (a : list A) (i : Z) (v : A) :
  (0 <= i)%Z -> a !! Z.to_nat i = Some v -> getitem a i = Ok v.
Proof.
  intros Hi Hv. unfold getitem.
  assert (E : (i <? 0)%Z = false) by (apply Z.ltb_ge; lia).
  rewrite E. cbv beta iota zeta. now rewrite E, Hv.
Qed.

Lemma flat_map_singleton {A B : Type} (f : A -> B) (l : list A) :
  flat_map (fun x => [f x]) l = map f l.
Proof. induction l; simpl; congruence. Qed.

Lemma cell_body_ok (x_grid y_grid : list Q) (nx ny i j : Z) (zones : list zone) :
  length x_grid = Z.to_nat (nx + 1) -> length y_grid = Z.to_nat (ny + 1) ->
  (0 <= i < nx)%Z -> (0 <= j < ny)%Z ->
  cell_body x_grid y_grid i j zones
  = Ok (zones ++ [cell (fun k => default 0 (x_grid !! Z.to_nat k))
                       (fun k => default 0 (y_grid !! Z.to_nat k)) i j]).
Proof.
  intros Hx Hy Hi Hj. unfold cell_body, cell, rect.
  destruct (lookup_lt_is_Some_2 x_grid (Z.to_nat i)) as [xi Hxi]; [lia|].
  destruct (lookup_lt_is_Some_2 x_grid (Z.to_nat (i + 1))) as [xi1 Hxi1]; [lia|].
  destruct (lookup_lt_is_Some_2 y_grid (Z.to_nat j)) as [yj Hyj]; [lia|].
  destruct (lookup_lt_is_Some_2 y_grid (Z.to_nat (j + 1))) as [yj1 Hyj1]; [lia|].
  rewrite (getitem_ok x_grid i xi), (getitem_ok y_grid j yj),
    (getitem_ok x_grid (i + 1) xi1), (getitem_ok y_grid (j + 1) yj1)
    by (assumption || lia).
  rewrite Hxi, Hxi1, Hyj, Hyj1. reflexivity.
Qed.



Lemma elem_of_cells (xs ys : Z -> Q) (nx ny : Z) (z : zone) :
  z ∈ cells xs ys nx ny
  <-> exists i j, (0 <= i < nx)%Z /\ (0 <= j < ny)%Z /\ z = cell xs ys i j.
Proof.
  unfold cells. rewrite list_elem_of_In, in_flat_map. split.
  - intros [i [Hi Hz]]. apply in_map_iff in Hz as [j [<- Hj]].
    apply list_elem_of_In, elem_of_range in Hi.
    apply list_elem_of_In, elem_of_range in Hj. eauto.
  - intros [i [j [Hi [Hj ->]]]]. exists i. split.
    + apply list_elem_of_In, elem_of_range, Hi.
    + apply in_map, list_elem_of_In, elem_of_range, Hj.
Qed.


(** *** Tiling *)


Section Grid.

Variables (x0 x1 y0 y1 : Q) (nx ny : Z) (xs ys : Z -> Q).
Hypothesis Hx : x0 < x1.
Hypothesis Hy : y0 < y1.
Hypothesis Hnx : (0 < nx)%Z.
Hypothesis Hny : (0 < ny)%Z.
Hypothesis Hxs : forall i, (0 <= i <= nx)%Z -> xs i == subdivision x0 x1 nx i.
Hypothesis Hys : forall j, (0 <= j <= ny)%Z -> ys j == subdivision y0 y1 ny j.

Lemma xs_step (i : Z) : (0 <= i < nx)%Z -> xs i < xs (i + 1)%Z.
Proof.
  intros Hi. rewrite (Hxs i), (Hxs (i + 1)%Z) by lia. now apply subdivision_step.
Qed.

Lemma ys_step (j : Z) : (0 <= j < ny)%Z -> ys j < ys (j + 1)%Z.
Proof.
  intros Hj. rewrite (Hys j), (Hys (j + 1)%Z) by lia. now apply subdivision_step.
Qed.

Lemma xs_mono (i k : Z) : (0 <= i)%Z -> (i <= k)%Z -> (k <= nx)%Z -> xs i <= xs k.
Proof.
  intros H0 Hik Hk. rewrite (Hxs i), (Hxs k) by lia. now apply subdivision_mono.
Qed.

Lemma ys_mono (j k : Z) : (0 <= j)%Z -> (j <= k)%Z -> (k <= ny)%Z -> ys j <= ys k.
Proof.
  intros H0 Hjk Hk. rewrite (Hys j), (Hys k) by lia. now apply subdivision_mono.
Qed.




Lemma cell_contains (i j : Z) (px py : Q) :
  (0 <= i < nx)%Z -> (0 <= j < ny)%Z ->
  contains (polygon_of (cell xs ys i j)) (px, py) = true
  <-> (xs i < px /\ px < xs (i + 1)%Z) /\ (ys j < py /\ py < ys (j + 1)%Z).
Proof. intros Hi Hj. apply contains_rect_iff; [now apply xs_step|now apply ys_step]. Qed.



End Grid.


(** *** Assignment *)

Lemma assign_zone_None (p : point) (zones_gdf : list zone) :
  assign_zone p zones_gdf = None
  <-> Forall (fun z => contains (polygon_of z) p = false) zones_gdf.
Proof.
  induction zones_gdf as [|z zs IH]; simpl.
  - split; [constructor|reflexivity].
  - destruct (contains (polygon_of z) p) eqn:E.
    + split; [discriminate|]. intros H. inversion H; congruence.
    + rewrite IH. split; [now constructor|]. intros H. now inversion H.
Qed.

Lemma assign_zone_Some (p : point) (zones_gdf : list zone) (zid : string) :
  assign_zone p zones_gdf = Some zid
  <-> exists before z after,
        zones_gdf = before ++ z :: after /\
        Forall (fun z' => contains (polygon_of z') p = false) before /\
        contains (polygon_of z) p = true /\ zone_id z = zid.
Proof.
  induction zones_gdf as [|z zs IH]; simpl.
  - split; [discriminate|]. intros [[|? ?] [? [? [? _]]]]; discriminate.
  - destruct (contains (polygon_of z) p) eqn:E.
    + split.
      * intros [= <-]. exists [], z, zs. repeat split; [constructor|exact E].
      * intros [[|b before] [z' [after [Heq [Hb [Hc Hid]]]]]]; simpl in Heq.
        -- injection Heq as -> ->. now rewrite Hid.
        -- injection Heq as -> ->. inversion Hb; congruence.
    + rewrite IH. split.
      * intros [before [z' [after [-> [Hb [Hc Hid]]]]]].
        exists (z :: before), z', after. repeat split; try assumption.
        now constructor.
      * intros [[|b before] [z' [after [Heq [Hb [Hc Hid]]]]]]; simpl in Heq.
        -- injection Heq as -> ->. congruence.
        -- injection Heq as -> ->. exists before, z', after.
           repeat split; try assumption. now inversion Hb.
Qed.

(** C4.  [assign_zone] returns the zone_id of the first zone, in the order
    of the zone table, whose polygon contains the point: every zone before
    it does not contain the point; it returns null exactly when no zone
    contains the point, and has no error outcome.  The zone_id column is
    this function applied to the projected centroid of every road, against
    the projected zones in their generation order. *)
Theorem assign_zone_first_match (p : point) (zones_gdf : list zone) :
  (forall zid, assign_zone p zones_gdf = Some zid
     <-> exists before z after,
           zones_gdf = before ++ z :: after /\
           Forall (fun z' => contains (polygon_of z') p = false) before /\
           contains (polygon_of z) p = true /\ zone_id z = zid) /\
  (assign_zone p zones_gdf = None
     <-> Forall (fun z => contains (polygon_of z) p = false) zones_gdf) /\
  (forall (to_crs : point -> point) (centroid : LineString -> point) (roads : list road),
     length (assign_roads to_crs centroid roads zones_gdf) = length roads /\
     (forall k r, roads !! k = Some r ->
        assign_roads to_crs centroid roads zones_gdf !! k
        = Some (assign_zone (centroid (map to_crs (geometry r)))
                            (zones_proj to_crs zones_gdf))) /\
     map zone_id (zones_proj to_crs zones_gdf) = map zone_id zones_gdf).
Proof.
  split; [intros zid; apply assign_zone_Some|].
  split; [apply assign_zone_None|].
  intros to_crs centroid roads. unfold assign_roads.
  split; [apply length_map|]. split.
  - intros k r Hr. change (@map road) with (@fmap list _ road).
    now rewrite list_lookup_fmap, Hr.
  - unfold zones_proj. rewrite map_map. reflexivity.
Qed.

(** The centroid (0.5, 0.5) in the 2 x 2 grid of unit squares, through the
    theorem: the first zone, z0_0, contains it. *)
Lemma assign_zone_first_match_witness :
  assign_zone (1 # 2, 1 # 2)
    [Zone "z0_0" (rect 0 1 0 1); Zone "z0_1" (rect 0 1 1 2);
     Zone "z1_0" (rect 1 2 0 1); Zone "z1_1" (rect 1 2 1 2)] = Some "z0_0"%string.
Proof.
  apply (proj1 (assign_zone_first_match _ _)).
  exists [], (Zone "z0_0" (rect 0 1 0 1)),
    [Zone "z0_1" (rect 0 1 1 2); Zone "z1_0" (rect 1 2 0 1); Zone "z1_1" (rect 1 2 1 2)].
  repeat split; constructor.
Defined.


(** *** The boundary *)

Lemma assign_zone_boundary_None (p : point) (zones_gdf : list zone) :
  Forall (fun z => on_boundary (polygon_of z) p = true) zones_gdf ->
  assign_zone p zones_gdf = None.
Proof.
  intros H. apply assign_zone_None. eapply Forall_impl; [exact H|].
  intros z Hz. now apply on_boundary_not_contains.
Qed.

Lemma assign_zone_interior (p : point) (zones_gdf : list zone) (zid : string) :
  assign_zone p zones_gdf = Some zid ->
  exists z, z ∈ zones_gdf /\ zone_id z = zid /\
            on_boundary (polygon_of z) p = false /\ winding (polygon_of z) p <> 0%Z.
Proof.
  intros H. apply assign_zone_Some in H as [before [z [after [-> [_ [Hc Hid]]]]]].
  exists z. split; [apply list_elem_of_In, in_elt|]. split; [exact Hid|].
  split; [now apply contains_not_on_boundary|].
  unfold contains in Hc. apply andb_true_iff in Hc as [_ Hw].
  apply negb_true_iff, Z.eqb_neq in Hw. exact Hw.
Qed.

(** A point on a line of the grid is interior to no cell. *)
Lemma grid_line_unassigned (x0 x1 y0 y1 : Q) (nx ny : Z) (xs ys : Z -> Q) (px py : Q) :
  x0 < x1 -> y0 < y1 -> (0 < nx)%Z -> (0 < ny)%Z ->
  (forall i, (0 <= i <= nx)%Z -> xs i == subdivision x0 x1 nx i) ->
  (forall j, (0 <= j <= ny)%Z -> ys j == subdivision y0 y1 ny j) ->
  (exists k, (0 <= k <= nx)%Z /\ px == xs k) \/ (exists k, (0 <= k <= ny)%Z /\ py == ys k) ->
  assign_zone (px, py) (cells xs ys nx ny) = None.
Proof.
  intros Hx Hy Hnx Hny Hxs Hys Hline.
  apply assign_zone_None, Forall_forall. intros z Hz.
  apply elem_of_cells in Hz as [i [j [Hi [Hj ->]]]].
  destruct (contains (polygon_of (cell xs ys i j)) (px, py)) eqn:E; [|reflexivity].
  exfalso.
  apply (cell_contains x0 x1 y0 y1 nx ny xs ys Hx Hy Hnx Hny Hxs Hys) in E; [|lia|lia].
  destruct E as [[Ha Hb] [Hc Hd]].
  destruct Hline as [[k [Hk Hp]]|[k [Hk Hp]]].
  - destruct (Z_le_gt_dec k i).
    + pose proof (xs_mono x0 x1 nx xs Hx Hnx Hxs k i ltac:(lia) ltac:(lia) ltac:(lia)). lra.
    + pose proof (xs_mono x0 x1 nx xs Hx Hnx Hxs (i + 1) k ltac:(lia) ltac:(lia) ltac:(lia)).
      lra.
  - destruct (Z_le_gt_dec k j).
    + pose proof (ys_mono y0 y1 ny ys Hy Hny Hys k j ltac:(lia) ltac:(lia) ltac:(lia)). lra.
    + pose proof (ys_mono y0 y1 ny ys Hy Hny Hys (j + 1) k ltac:(lia) ltac:(lia) ltac:(lia)).
      lra.
Qed.

(** C10.  Containment excludes the boundary: a point that lies on the
    boundary of every zone polygon is assigned to no zone; a point that is
    assigned lies off the boundary of its zone and is wound by it, that
    is, lies in its interior; and in the grid of a box of positive extent a
    point on a grid line, hence on every edge shared by two cells, is left
    unassigned. *)
Theorem assign_zone_excludes_boundary (p : point) (zones_gdf : list zone) :
  (Forall (fun z => on_boundary (polygon_of z) p = true) zones_gdf ->
   assign_zone p zones_gdf = None) /\
  (forall zid, assign_zone p zones_gdf = Some zid ->
     exists z, z ∈ zones_gdf /\ zone_id z = zid /\
               on_boundary (polygon_of z) p = false /\ winding (polygon_of z) p <> 0%Z) /\
  (forall (x0 x1 y0 y1 : Q) (nx ny : Z) (xs ys : Z -> Q),
     x0 < x1 -> y0 < y1 -> (0 < nx)%Z -> (0 < ny)%Z ->
     (forall i, (0 <= i <= nx)%Z -> xs i == subdivision x0 x1 nx i) ->
     (forall j, (0 <= j <= ny)%Z -> ys j == subdivision y0 y1 ny j) ->
     zones_gdf = cells xs ys nx ny ->
     (exists k, (0 <= k <= nx)%Z /\ fst p == xs k) \/
     (exists k, (0 <= k <= ny)%Z /\ snd p == ys k) ->
     assign_zone p zones_gdf = None).
Proof.
  split; [apply assign_zone_boundary_None|].
  split; [intros zid; apply assign_zone_interior|].
  intros x0 x1 y0 y1 nx ny xs ys Hx Hy Hnx Hny Hxs Hys -> Hline.
  destruct p as [px py]. now apply (grid_line_unassigned x0 x1 y0 y1).
Qed.

(** The centroid (1, 0.5) on the edge shared by the unit squares z0_0 and
    z1_0, through the theorem: it is assigned to neither. *)
Lemma assign_zone_excludes_boundary_witness :
  assign_zone (1, 1 # 2) [Zone "z0_0" (rect 0 1 0 1); Zone "z1_0" (rect 1 2 0 1)] = None.
Proof.
  apply (proj1 (assign_zone_excludes_boundary _ _)).
  repeat constructor.
Defined.


(** *** Parsing *)

Lemma subscript_Some {V : Type} (d : gmap string V) (k : string) (v : V) :
  d !! k = Some v -> subscript d k = Ok v.
Proof. unfold subscript. now intros ->. Qed.

Lemma subscript_None {V : Type} (d : gmap string V) (k : string) :
  d !! k = None -> subscript d k = Raise KeyError.
Proof. unfold subscript. now intros ->. Qed.

Lemma comprehension_missing (nodes : gmap string point) (nds : list string) :
  (exists nd, nd ∈ nds /\ nodes !! nd = None) ->
  comprehension (subscript nodes) nds = Raise KeyError.
Proof.
  induction nds as [|x nds IH]; intros [nd [Hin Hnone]].
  - inversion Hin.
  - simpl. destruct (nodes !! x) as [v|] eqn:Ex.
    2:{ now rewrite (subscript_None nodes x Ex). }
    rewrite (subscript_Some nodes x v Ex). simpl. rewrite IH; [reflexivity|].
    exists nd. split; [|exact Hnone].
    apply elem_of_cons in Hin as [->|Hin]; [congruence|exact Hin].
Qed.

(** A way that names a node missing from the table leaves [roads] as it is. *)
Lemma parse_way_missing_node (nodes : gmap string point) (w : osm_way) (roads : list road) :
  (exists nd, nd ∈ way_nds w /\ nodes !! nd = None) ->
  parse_way nodes w roads = Ok roads.
Proof.
  intros H. unfold parse_way, try_body.
  destruct (decide _); [|reflexivity].
  now rewrite (comprehension_missing nodes (way_nds w) H).
Qed.

(** A tagged way with exactly one node, present in the table, ends the
    parse: the exception of [LineString] is not a KeyError. *)
Lemma parse_way_single_node (nodes : gmap string point) (w : osm_way) (roads : list road)
    (nd : string) (c : point) :
  is_Some (dict_of (way_tags w) !! "highway"%string) ->
  way_nds w = [nd] -> nodes !! nd = Some c ->
  parse_way nodes w roads = Raise GEOSException.
Proof.
  intros Htag Hnds Hc. unfold parse_way, try_body.
  destruct (decide _); [|contradiction].
  rewrite Hnds. simpl. rewrite (subscript_Some nodes nd c Hc). reflexivity.
Qed.

(** C7 as stated fails.  A file whose first highway has a single
    coordinate pair: the parse ends with the exception of [LineString], and
    the second, well-formed highway is never read; without the first way
    the parse returns the second as a road. *)
Lemma single_point_way_aborts_parse :
  let n1 := OsmNode "1" (72 # 1) (23 # 1) in
  let n2 := OsmNode "2" (73 # 1) (23 # 1) in
  let bad := OsmWay "10" [("highway", "residential")]%string ["1"%string] in
  let good := OsmWay "11" [("highway", "primary")]%string ["1"; "2"]%string in
  parse_osm_roads (OsmFile [n1; n2] [bad; good]) = Raise GEOSException /\
  parse_osm_roads (OsmFile [n1; n2] [good])
    = Ok [Road "11" "primary" [(72 # 1, 23 # 1); (73 # 1, 23 # 1)]].
Proof. vm_compute. split; reflexivity. Qed.

(** C7, amended.  A way that references a node absent from the node table
    is skipped and the parse goes on with the other ways: the result, roads
    or exception, is the one of the file without that way.  Nothing is
    recorded about the skipped way. *)
Theorem parse_skips_way_with_missing_node (ns : list osm_node)
    (before after : list osm_way) (w : osm_way) :
  (exists nd, nd ∈ way_nds w /\ nodes_of ns !! nd = None) ->
  parse_osm_roads (OsmFile ns (before ++ w :: after))
  = parse_osm_roads (OsmFile ns (before ++ after)).
Proof.
  intros H. unfold parse_osm_roads. simpl. fold (nodes_of ns).
  rewrite !for_in_app.
  destruct (for_in before (parse_way (nodes_of ns)) []) as [roads|e]; simpl; [|reflexivity].
  now rewrite (parse_way_missing_node (nodes_of ns) w roads H).
Qed.

(** A highway that names the missing node 3 between two good highways,
    through the theorem: the parse equals the parse of the two good ones. *)
Lemma parse_skips_way_with_missing_node_witness :
  let n1 := OsmNode "1" (72 # 1) (23 # 1) in
  let n2 := OsmNode "2" (73 # 1) (23 # 1) in
  let good1 := OsmWay "11" [("highway", "primary")]%string ["1"; "2"]%string in
  let bad := OsmWay "12" [("highway", "service")]%string ["1"; "3"]%string in
  let good2 := OsmWay "13" [("highway", "primary")]%string ["2"; "1"]%string in
  parse_osm_roads (OsmFile [n1; n2] ([good1] ++ bad :: [good2]))
  = parse_osm_roads (OsmFile [n1; n2] ([good1] ++ [good2])).
Proof.
  intros n1 n2 good1 bad good2.
  apply (parse_skips_way_with_missing_node [n1; n2] [good1] [good2] bad).
  exists "3"%string. split; [|vm_compute; reflexivity].
  subst bad. simpl. apply list_elem_of_In. simpl. auto.
Defined.


End ExtractFacts.

(** ** app.py: the cycle *)

Module CycleFacts.

Import App Terms.
Local Open Scope Z_scope.
Local Set Warnings "-inexact-float".

Lemma simulate_phase_at (c : float) (tick offset : Z) :
  simulate_traffic_light c tick offset = phase_at c ((tick + offset) mod 12).
Proof. reflexivity. Qed.

Lemma twelve_cases (p : Z) :
  0 <= p < 12 ->
  p = 0 \/ p = 1 \/ p = 2 \/ p = 3 \/ p = 4 \/ p = 5 \/
  p = 6 \/ p = 7 \/ p = 8 \/ p = 9 \/ p = 10 \/ p = 11.
Proof. lia. Qed.

Lemma shifted_position (tick offset k : Z) :
  (tick + k + offset) mod 12 = ((tick + offset) mod 12 + k) mod 12.
Proof.
  rewrite Z.add_mod_idemp_l by lia. f_equal. lia.
Qed.

Ltac each_position p :=
  let H := fresh in
  pose proof (twelve_cases p) as H;
  repeat match type of H with
  | _ \/ _ => destruct H as [H|H]
  | _ -> _ => specialize (H ltac:(apply Z.mod_pos_bound; lia))
  end.

(** X1.  From one tick to the next a light keeps its state or moves to the
    next one of the cycle red, yellow, green, red: it never goes from red to
    green, from yellow to red or from green to yellow. *)
Theorem light_advances_in_order (c : float) (tick offset : Z) :
  simulate_traffic_light c (tick + 1) offset = simulate_traffic_light c tick offset \/
  simulate_traffic_light c (tick + 1) offset
    = next_light (simulate_traffic_light c tick offset).
Proof.
  rewrite !simulate_phase_at, shifted_position.
  pose proof (Z.mod_pos_bound (tick + offset) 12 ltac:(lia)) as Hp.
  revert Hp. generalize ((tick + offset) mod 12). intros p Hp.
  apply twelve_cases in Hp. unfold phase_at.
  destruct (0.7 <? c)%float, (0.3 <? c)%float;
    repeat (destruct Hp as [->|Hp]); subst; vm_compute; auto.
Qed.

(** X2.  On any 12 consecutive ticks a road is yellow on exactly 2 of them,
    red on 8, 5 or 3 and green on 2, 5 or 7 of them according to its band
    (above 0.7, above 0.3, otherwise), whatever the first tick and the
    offset. *)
Theorem duty_cycle (c : float) (tick offset : Z) :
  let w := cycle_window c tick offset in
  count_light Red w
    = (if (0.7 <? c)%float then 8 else if (0.3 <? c)%float then 5 else 3)%nat /\
  count_light Yellow w = 2%nat /\
  count_light Green w
    = (if (0.7 <? c)%float then 2 else if (0.3 <? c)%float then 5 else 7)%nat.
Proof.
  unfold cycle_window.
  change (seqZ 0 12) with [0; 1; 2; 3; 4; 5; 6; 7; 8; 9; 10; 11].
  cbn [map]. rewrite !simulate_phase_at, !shifted_position.
  pose proof (Z.mod_pos_bound (tick + offset) 12 ltac:(lia)) as Hp.
  revert Hp. generalize ((tick + offset) mod 12). intros p Hp.
  apply twelve_cases in Hp. unfold phase_at.
  destruct (0.7 <? c)%float, (0.3 <? c)%float;
    repeat (destruct Hp as [->|Hp]); subst; vm_compute; auto.
Qed.

(** X3.  More congestion never shortens the red: at the same tick and
    offset, a road that is red stays red when its congestion is raised, and a
    road that is green stays green when its congestion is lowered. *)
Theorem red_grows_with_congestion (c1 c2 : float) (tick offset : Z) :
  (c1 <=? c2)%float = true ->
  (simulate_traffic_light c1 tick offset = Red ->
   simulate_traffic_light c2 tick offset = Red) /\
  (simulate_traffic_light c2 tick offset = Green ->
   simulate_traffic_light c1 tick offset = Green).
Proof.
  intros Hle. rewrite !simulate_phase_at.
  pose proof (Z.mod_pos_bound (tick + offset) 12 ltac:(lia)) as Hp.
  revert Hp. generalize ((tick + offset) mod 12). intros p Hp.
  apply twelve_cases in Hp. unfold phase_at.
  assert (H7 : (0.7 <? c1)%float = true -> (0.7 <? c2)%float = true)
    by (intros H; exact (Float64.ltb_leb_trans _ _ _ H Hle)).
  assert (H3 : (0.3 <? c1)%float = true -> (0.3 <? c2)%float = true)
    by (intros H; exact (Float64.ltb_leb_trans _ _ _ H Hle)).
  assert (H73 : (0.7 <? c2)%float = true -> (0.3 <? c2)%float = true).
  { intros H. apply (Float64.leb_ltb_trans _ 0.7%float); [reflexivity|exact H]. }
  destruct (0.7 <? c1)%float, (0.3 <? c1)%float,
           (0.7 <? c2)%float, (0.3 <? c2)%float;
    try (specialize (H7 eq_refl)); try (specialize (H3 eq_refl));
    try (specialize (H73 eq_refl)); try discriminate;
    repeat (destruct Hp as [->|Hp]); subst; vm_compute; split; congruence.
Qed.

Lemma red_grows_with_congestion_witness :
  (0.5 <=? 0.9)%float = true /\ simulate_traffic_light 0.9 4 0 = Red.
Proof.
  split; [reflexivity|].
  apply (proj1 (red_grows_with_congestion 0.5 0.9 4 0 eq_refl)). reflexivity.
Defined.

(** X4.  The colours of the road layer repeat every 12 ticks: the layer of
    tick + 12 k is the layer of tick; the layer has one colour per road, and
    every colour is the red, the yellow or the green of [light_color_map]. *)
Theorem road_layer_period (sec : PyHash.secret) (roads_gdf : list road_row) (tick k : Z) :
  build_road_layer sec roads_gdf (tick + 12 * k) = build_road_layer sec roads_gdf tick /\
  length (build_road_layer sec roads_gdf tick) = length roads_gdf /\
  Forall (fun col => col = [255; 0; 0] \/ col = [255; 255; 0] \/ col = [0; 255; 0])
         (build_road_layer sec roads_gdf tick).
Proof.
  unfold build_road_layer. split; [|split].
  - apply map_ext. intros row. rewrite !simulate_phase_at. do 2 f_equal.
    replace (tick + 12 * k + phase_offset sec (id row) 12)
      with (tick + phase_offset sec (id row) 12 + k * 12) by lia.
    apply Z.mod_add. lia.
  - apply length_map.
  - apply Forall_map, Forall_forall. intros row _.
    destruct (simulate_traffic_light _ _ _); simpl; auto.
Qed.

(** X5.  The hash of an integer id is never -1 and lies strictly between
    -(2^61 - 1) and 2^61 - 1; for an id n with 0 <= n < 2^61 - 1 the offset
    is n mod 12, in every process. *)
Theorem phase_offset_of_int (sec : PyHash.secret) (n : Z) :
  PyHash.hash_int n <> -1 /\
  - (2 ^ 61 - 1) < PyHash.hash_int n < 2 ^ 61 - 1 /\
  (0 <= n < 2 ^ 61 - 1 -> phase_offset sec (IdInt n) 12 = n mod 12).
Proof.
  assert (Hm : 0 <= Z.abs n mod (2 ^ 61 - 1) < 2 ^ 61 - 1)
    by (apply Z.mod_pos_bound; lia).
  unfold phase_offset, hash, PyHash.hash_int.
  set (h := Z.sgn n * (Z.abs n mod (2 ^ 61 - 1))) in *.
  assert (Hh : - (2 ^ 61 - 1) < h < 2 ^ 61 - 1).
  { subst h. destruct (Z.sgn_spec n) as [[_ ->]|[[_ ->]|[_ ->]]]; lia. }
  split; [|split].
  - destruct (Z.eqb_spec h (-1)); lia.
  - destruct (Z.eqb_spec h (-1)); lia.
  - intros Hn. assert (h = n).
    { subst h. rewrite Z.abs_eq, Z.mod_small by lia.
      destruct (Z.sgn_spec n) as [[? ->]|[[? ->]|[? ->]]]; lia. }
    destruct (Z.eqb_spec h (-1)); [lia|]. congruence.
Qed.

Lemma phase_offset_of_int_witness :
  phase_offset (PyHash.secret_of_seed 7) (IdInt 123456789) 12 = 123456789 mod 12.
Proof.
  apply (proj2 (proj2 (phase_offset_of_int (PyHash.secret_of_seed 7) 123456789))). lia.
Defined.


End CycleFacts.

(** ** extract_roads_zones.py: the parser *)

Module ParseFacts.

Import Py Geometry ExtractRoadsZones Terms.
Local Open Scope Q_scope.

(** *** Dictionaries *)

Lemma dict_of_snoc {V : Type} (entries : list (string * V)) (k : string) (v : V) :
  dict_of (entries ++ [(k, v)]) = <[k := v]> (dict_of entries).
Proof. unfold dict_of. now rewrite fold_left_app. Qed.

Lemma dict_of_lookup {V : Type} (entries : list (string * V)) (k : string) :
  dict_of entries !! k = snd <$> last (filter (fun kv => fst kv = k) entries).
Proof.
  induction entries as [|[k' v'] entries IH] using rev_ind; [reflexivity|].
  rewrite dict_of_snoc, filter_app, filter_cons, filter_nil. simpl.
  destruct (decide (k' = k)) as [->|Hne].
  - now rewrite lookup_insert_eq, last_snoc.
  - now rewrite lookup_insert_ne, app_nil_r by exact Hne.
Qed.

(** X7.  A dictionary comprehension maps a key to the value of its last
    entry: the table of nodes gives a repeated node id the coordinates of
    its last occurrence in the file, and a key is missing exactly when no
    entry has it. *)
Theorem dict_of_last_entry_wins {V : Type} (entries : list (string * V)) (k : string) :
  dict_of entries !! k = snd <$> last (filter (fun kv => fst kv = k) entries) /\
  (forall v later, entries = later ++ [(k, v)] -> dict_of entries !! k = Some v) /\
  (dict_of entries !! k = None <-> k ∉ map fst entries).
Proof.
  split; [apply dict_of_lookup|]. split.
  - intros v later ->. now rewrite dict_of_snoc, lookup_insert_eq.
  - rewrite dict_of_lookup. rewrite fmap_None, last_None. split.
    + intros Hnil Hin. apply list_elem_of_fmap in Hin as [[k' v] [Hk Hin]].
      simpl in Hk. subst k'.
      assert (Hf : (k, v) ∈ filter (fun kv : string * V => fst kv = k) entries)
        by (apply list_elem_of_filter; auto).
      rewrite Hnil in Hf. inversion Hf.
    + intros Hnot.
      destruct (filter (fun kv : string * V => fst kv = k) entries) as [|[k' v] l] eqn:E;
        [reflexivity|].
      assert (Hf : (k', v) ∈ filter (fun kv : string * V => fst kv = k) entries)
        by (rewrite E; constructor).
      apply list_elem_of_filter in Hf as [Hk Hin]. simpl in Hk. subst k'.
      exfalso. apply Hnot. apply list_elem_of_fmap. now exists (k, v).
Qed.

(** *** The parse as a function of the file *)

Lemma comprehension_resolve (nodes : gmap string point) (nds : list string) :
  comprehension (subscript nodes) nds
  = match resolve nodes nds with Some cs => Ok cs | None => Raise KeyError end.
Proof.
  induction nds as [|nd nds IH]; [reflexivity|]. simpl. rewrite IH.
  unfold subscript. destruct (nodes !! nd); [|reflexivity].
  simpl. destruct (resolve nodes nds); reflexivity.
Qed.

Lemma resolve_Forall2 (nodes : gmap string point) (nds : list string) (cs : list point) :
  resolve nodes nds = Some cs <-> Forall2 (fun nd c => nodes !! nd = Some c) nds cs.
Proof.
  revert cs. induction nds as [|nd nds IH]; intros cs; simpl.
  - split; [intros [= <-]; constructor|]. intros H. now inversion H.
  - destruct (nodes !! nd) as [c|] eqn:Ec.
    + destruct (resolve nodes nds) as [cs'|] eqn:Er.
      * split.
        -- intros [= <-]. constructor; [exact Ec|]. now apply IH.
        -- intros H. inversion H as [|? c' ? cs'' Hc Hcs]; subst.
           apply IH in Hcs. congruence.
      * split; [discriminate|]. intros H.
        inversion H as [|? c' ? cs'' Hc Hcs]; subst. apply IH in Hcs. discriminate.
    + split; [discriminate|]. intros H. inversion H; congruence.
Qed.

Lemma parse_way_value (nodes : gmap string point) (w : osm_way) (roads : list road) :
  parse_way nodes w roads
  = if aborts nodes w then Raise GEOSException
    else Ok (roads ++ option_list (road_of nodes w)).
Proof.
  unfold parse_way, try_body, aborts, tagged, road_of.
  rewrite comprehension_resolve.
  destruct (decide (is_Some (dict_of (way_tags w) !! "highway"%string))) as [Ht|Ht].
  - rewrite (bool_decide_eq_true_2 _ Ht). destruct Ht as [hw Hhw]. rewrite Hhw. simpl.
    destruct (resolve nodes (way_nds w)) as [[|c [|c' cs]]|]; simpl;
      try reflexivity; try (now rewrite app_nil_r).
    all: unfold subscript; rewrite Hhw; reflexivity.
  - rewrite (bool_decide_eq_false_2 _ Ht). simpl.
    destruct (dict_of (way_tags w) !! "highway"%string) eqn:E.
    + exfalso. apply Ht. eauto.
    + simpl. now rewrite app_nil_r.
Qed.

Lemma parse_ways_value (nodes : gmap string point) (ways : list osm_way) (roads : list road) :
  for_in ways (parse_way nodes) roads
  = if existsb (aborts nodes) ways then Raise GEOSException
    else Ok (roads ++ omap (road_of nodes) ways).
Proof.
  revert roads. induction ways as [|w ways IH]; intros roads; simpl.
  - now rewrite app_nil_r.
  - rewrite parse_way_value. destruct (aborts nodes w); simpl; [reflexivity|].
    rewrite IH. destruct (existsb (aborts nodes) ways); [reflexivity|].
    destruct (road_of nodes w); simpl; [now rewrite <- app_assoc|now rewrite app_nil_r].
Qed.

Lemma parse_osm_roads_cases (f : osm_file) :
  parse_osm_roads f
  = (if existsb (aborts (nodes_of (file_nodes f))) (file_ways f)
     then Raise GEOSException
     else GeoDataFrame (omap (road_of (nodes_of (file_nodes f))) (file_ways f))).
Proof.
  unfold parse_osm_roads. fold (nodes_of (file_nodes f)).
  rewrite parse_ways_value. now destruct (existsb _ _).
Qed.

(** *** Elements that carry their attributes *)

Lemma comprehension_Ok {A B : Type} (f : A -> result B) (h : A -> B) (l : list A) :
  Forall (fun x => f x = Ok (h x)) l -> comprehension f l = Ok (map h l).
Proof.
  induction 1 as [|x l Hx _ IH]; [reflexivity|]. simpl. now rewrite Hx, IH.
Qed.

Lemma comprehension_map {A B C : Type} (f : B -> result C) (g : A -> B) (l : list A) :
  comprehension f (map g l) = comprehension (fun x => f (g x)) l.
Proof. induction l as [|x l IH]; [reflexivity|]. simpl. now rewrite IH. Qed.

Lemma for_in_map {A B S : Type} (g : A -> B) (body : B -> S -> result S) (l : list A) (s : S) :
  for_in (map g l) body s = for_in l (fun x => body (g x)) s.
Proof.
  revert s. induction l as [|x l IH]; intros s; [reflexivity|]. simpl.
  destruct (body (g x) s); simpl; [apply IH|reflexivity].
Qed.

Lemma for_in_ext {A S : Type} (body body' : A -> S -> result S) (l : list A) (s : S) :
  (forall x s, body x s = body' x s) -> for_in l body s = for_in l body' s.
Proof.
  intros H. revert s. induction l as [|x l IH]; intros s; [reflexivity|]. simpl.
  rewrite H. destruct (body' x s); simpl; [apply IH|reflexivity].
Qed.

Lemma filter_tag_all {A : Type} (g : A -> element) (t : string) (l : list A) :
  (forall x, tag_of (g x) = t) -> filter (fun e => tag_of e = t) (map g l) = map g l.
Proof.
  intros H. induction l as [|x l IH]; [reflexivity|]. simpl.
  rewrite filter_cons, IH. destruct (decide (tag_of (g x) = t)); [reflexivity|].
  now specialize (H x).
Qed.

Lemma filter_tag_none {A : Type} (g : A -> element) (t : string) (l : list A) :
  (forall x, tag_of (g x) <> t) -> filter (fun e => tag_of e = t) (map g l) = [].
Proof.
  intros H. induction l as [|x l IH]; [reflexivity|]. simpl.
  rewrite filter_cons, IH. destruct (decide (tag_of (g x) = t)); [|reflexivity].
  now specialize (H x).
Qed.

Lemma findall_nodes (show : Q -> string) (f : osm_file) :
  findall (osm_element show f) "node" = map (node_element show) (file_nodes f).
Proof.
  unfold findall, osm_element. rewrite filter_app.
  rewrite filter_tag_all by reflexivity.
  rewrite filter_tag_none by discriminate. apply app_nil_r.
Qed.

Lemma findall_ways (show : Q -> string) (f : osm_file) :
  findall (osm_element show f) "way" = map way_element (file_ways f).
Proof.
  unfold findall, osm_element. rewrite filter_app.
  rewrite filter_tag_none by discriminate.
  now rewrite filter_tag_all by reflexivity.
Qed.

Lemma findall_tags (w : osm_way) :
  findall (way_element w) "tag" = map tag_element (way_tags w).
Proof.
  unfold findall, way_element. rewrite filter_app.
  rewrite filter_tag_all by reflexivity.
  rewrite filter_tag_none by discriminate. apply app_nil_r.
Qed.

Lemma findall_nds (w : osm_way) :
  findall (way_element w) "nd" = map nd_element (way_nds w).
Proof.
  unfold findall, way_element. rewrite filter_app.
  rewrite filter_tag_none by discriminate.
  now rewrite filter_tag_all by reflexivity.
Qed.

Section Carried.

Variable float : string -> result Q.
Variable show : Q -> string.

Lemma node_entry_carried (n : osm_node) :
  float (show (lon n)) = Ok (lon n) -> float (show (lat n)) = Ok (lat n) ->
  Xml.node_entry float (node_element show n) = Ok (node_id n, (lon n, lat n)).
Proof.
  intros Hx Hy. unfold Xml.node_entry, node_element, attrib, dict_of. simpl.
  rewrite (ExtractFacts.subscript_Some _ "id" (node_id n))
    by (now rewrite !lookup_insert_ne, lookup_insert_eq by discriminate).
  simpl.
  rewrite (ExtractFacts.subscript_Some _ "lon" (show (lon n)))
    by (now rewrite lookup_insert_ne, lookup_insert_eq by discriminate).
  simpl. rewrite Hx. simpl.
  rewrite (ExtractFacts.subscript_Some _ "lat" (show (lat n))) by (now rewrite lookup_insert_eq).
  simpl. now rewrite Hy.
Qed.

Lemma tag_entry_carried (kv : string * string) :
  Xml.tag_entry (tag_element kv) = Ok kv.
Proof.
  destruct kv as [k v]. unfold Xml.tag_entry, tag_element, attrib, dict_of. simpl.
  rewrite (ExtractFacts.subscript_Some _ "k" k)
    by (now rewrite lookup_insert_ne, lookup_insert_eq by discriminate).
  simpl. now rewrite (ExtractFacts.subscript_Some _ "v" v) by (now rewrite lookup_insert_eq).
Qed.

Lemma ref_carried (nd : string) :
  subscript (attrib (nd_element nd)) "ref" = Ok nd.
Proof.
  unfold nd_element, attrib, dict_of. simpl.
  now rewrite (ExtractFacts.subscript_Some _ "ref" nd) by (now rewrite lookup_insert_eq).
Qed.

Lemma tags_carried (w : osm_way) :
  comprehension Xml.tag_entry (findall (way_element w) "tag") = Ok (way_tags w).
Proof.
  rewrite findall_tags, comprehension_map.
  rewrite (comprehension_Ok _ (fun kv => kv)); [now rewrite map_id|].
  apply Forall_forall. intros x _. apply tag_entry_carried.
Qed.

Lemma nds_carried (w : osm_way) :
  comprehension (fun nd => subscript (attrib nd) "ref") (findall (way_element w) "nd")
  = Ok (way_nds w).
Proof.
  rewrite findall_nds, comprehension_map.
  rewrite (comprehension_Ok _ (fun nd => nd)); [now rewrite map_id|].
  apply Forall_forall. intros x _. apply ref_carried.
Qed.

Lemma way_id_carried (w : osm_way) :
  subscript (attrib (way_element w)) "id" = Ok (way_id w).
Proof.
  unfold way_element, attrib, dict_of. simpl.
  now rewrite (ExtractFacts.subscript_Some _ "id" (way_id w)) by (now rewrite lookup_insert_eq).
Qed.

Lemma try_body_carried (nodes : gmap string point) (tags : gmap string string)
    (w : osm_way) :
  Xml.try_body nodes tags (way_element w) (way_nds w) = try_body nodes tags w.
Proof.
  unfold Xml.try_body, try_body.
  destruct (comprehension (subscript nodes) (way_nds w)) as [coords|e];
    cbn [mbind result_bind bind]; [|reflexivity].
  destruct (mkLineString coords) as [line|e]; cbn [mbind result_bind bind]; [|reflexivity].
  now rewrite way_id_carried.
Qed.

Lemma parse_way_carried (nodes : gmap string point) (w : osm_way) (roads : list road) :
  Xml.parse_way nodes (way_element w) roads = parse_way nodes w roads.
Proof.
  unfold Xml.parse_way, parse_way. rewrite tags_carried. cbn [mbind result_bind bind].
  destruct (decide (is_Some (dict_of (way_tags w) !! "highway"%string))); [|reflexivity].
  rewrite nds_carried. cbn [mbind result_bind bind]. now rewrite try_body_carried.
Qed.

Lemma parse_osm_roads_carried (f : osm_file) :
  Forall (fun n => float (show (lon n)) = Ok (lon n) /\ float (show (lat n)) = Ok (lat n))
         (file_nodes f) ->
  Xml.parse_osm_roads float (osm_element show f) = parse_osm_roads f.
Proof.
  intros H. unfold Xml.parse_osm_roads, parse_osm_roads.
  rewrite findall_nodes, findall_ways, comprehension_map.
  rewrite (comprehension_Ok _ (fun n => (node_id n, (lon n, lat n)))).
  2:{ eapply Forall_impl; [exact H|]. intros n [Hx Hy]. now apply node_entry_carried. }
  cbn [mbind result_bind bind]. rewrite for_in_map.
  now rewrite (for_in_ext _ _ _ _ (parse_way_carried _)).
Qed.

(** A first node that lacks its id ends the parse with KeyError: the node
    table is made before the [try:]. *)
Lemma node_without_id_raises (root node : element) (rest : list element) :
  findall root "node" = node :: rest -> attrib node !! "id"%string = None ->
  Xml.parse_osm_roads float root = Raise KeyError.
Proof.
  intros Hf Hid. unfold Xml.parse_osm_roads. rewrite Hf. simpl.
  unfold Xml.node_entry. now rewrite (ExtractFacts.subscript_None _ _ Hid).
Qed.

(** X8.  The parse is a function of the file alone.  On a file whose
    elements carry the attributes that are read, with coordinates that
    [float] accepts, the parse of the elements is the parse of the records.
    When some tagged way whose nodes are all in the table has exactly one
    node, the parse raises the exception of [LineString]; otherwise, when
    no way is tagged with all its nodes in the table, the list of roads is
    empty and making the table raises ValueError; otherwise it returns, in
    file order, one road for every tagged way whose nodes are all in the
    table, and nothing for the other ways.  No other exception leaves the
    parse of the records, in particular no KeyError, and a table that is
    returned has at least one road. *)
Theorem parse_osm_roads_value (f : osm_file) :
  (Forall (fun n => float (show (lon n)) = Ok (lon n) /\ float (show (lat n)) = Ok (lat n))
          (file_nodes f) ->
   Xml.parse_osm_roads float (osm_element show f) = parse_osm_roads f) /\
  parse_osm_roads f
  = (if existsb (aborts (nodes_of (file_nodes f))) (file_ways f)
     then Raise GEOSException
     else match omap (road_of (nodes_of (file_nodes f))) (file_ways f) with
          | [] => Raise ValueError
          | roads => Ok roads
          end) /\
  (forall e, parse_osm_roads f = Raise e -> e = GEOSException \/ e = ValueError) /\
  parse_osm_roads f <> Ok [].
Proof.
  split; [apply parse_osm_roads_carried|].
  rewrite parse_osm_roads_cases. unfold GeoDataFrame.
  destruct (existsb _ _).
  - split; [reflexivity|]. split; [|discriminate]. intros e [= <-]. now left.
  - destruct (omap _ _) as [|r roads].
    + split; [reflexivity|]. split; [|discriminate]. intros e [= <-]. now right.
    + split; [reflexivity|]. split; discriminate.
Qed.

End Carried.

(** Two nodes and one highway between them, as elements, through the
    theorem: the parse of the elements is the parse of the records. *)
Lemma parse_osm_roads_value_witness :
  let float := fun s : string => if String.eqb s "72.5" then Ok (145 # 2)
                                 else if String.eqb s "23" then Ok 23
                                 else Raise ValueError in
  let show := fun q : Q => if Qeq_bool q 23 then "23"%string else "72.5"%string in
  let f := OsmFile [OsmNode "1" (145 # 2) 23; OsmNode "2" 23 23]
                   [OsmWay "11" [("highway", "primary")]%string ["1"; "2"]%string] in
  Xml.parse_osm_roads float (osm_element show f) = parse_osm_roads f.
Proof.
  intros float show f.
  apply (proj1 (parse_osm_roads_value float show f)).
  repeat constructor.
Defined.

Lemma road_of_Some (nodes : gmap string point) (w : osm_way) (r : road) :
  road_of nodes w = Some r ->
  id r = way_id w /\
  dict_of (way_tags w) !! "highway"%string = Some (highway r) /\
  Forall2 (fun nd c => nodes !! nd = Some c) (way_nds w) (geometry r).
Proof.
  unfold road_of. destruct (dict_of (way_tags w) !! "highway"%string) as [hw|]; [|discriminate].
  destruct (resolve nodes (way_nds w)) as [cs|] eqn:Er; [|discriminate].
  intros [= <-]. simpl. repeat split. now apply resolve_Forall2.
Qed.

Lemma omap_sublist_ids (nodes : gmap string point) (ways : list osm_way) :
  map id (omap (road_of nodes) ways) `sublist_of` map way_id ways.
Proof.
  induction ways as [|w ways IH]; simpl; [constructor|].
  destruct (road_of nodes w) as [r|] eqn:Er; simpl.
  - apply road_of_Some in Er as [-> _]. now constructor.
  - now constructor.
Qed.

(** X9.  When the parse succeeds, every road it returns comes from a way of
    the file: it has the id of that way, the value of the way's last
    [highway] tag, and as geometry the coordinates the node table gives to
    the way's node references, one per reference and in their order; no
    geometry has exactly one point; and the ids of the roads are a
    subsequence of the ids of the ways. *)
Theorem parsed_roads_come_from_ways (f : osm_file) (roads : list road) :
  parse_osm_roads f = Ok roads ->
  Forall (fun r =>
            length (geometry r) <> 1%nat /\
            exists w, w ∈ file_ways f /\ id r = way_id w /\
              dict_of (way_tags w) !! "highway"%string = Some (highway r) /\
              Forall2 (fun nd c => nodes_of (file_nodes f) !! nd = Some c)
                      (way_nds w) (geometry r))
         roads /\
  map id roads `sublist_of` map way_id (file_ways f).
Proof.
  rewrite parse_osm_roads_cases. set (nodes := nodes_of (file_nodes f)).
  destruct (existsb (aborts nodes) (file_ways f)) eqn:Ea; [discriminate|].
  unfold GeoDataFrame. destruct (omap (road_of nodes) (file_ways f)) as [|r0 rs0] eqn:Eo;
    [discriminate|].
  rewrite <- Eo. clear r0 rs0 Eo.
  intros [= <-]. split; [|apply omap_sublist_ids].
  apply Forall_forall. intros r Hr.
  apply list_elem_of_omap in Hr as [w [Hw Hr]].
  pose proof (road_of_Some nodes w r Hr) as [Hid [Hhw Hgeo]].
  split; [|exists w; auto].
  intros Hone.
  assert (Hab : aborts nodes w = true).
  { unfold aborts, tagged. rewrite bool_decide_eq_true_2 by (rewrite Hhw; eauto).
    apply resolve_Forall2 in Hgeo. rewrite Hgeo. simpl.
    destruct (geometry r) as [|c [|c' cs]]; simpl in Hone; congruence. }
  assert (existsb (aborts nodes) (file_ways f) = true).
  { apply existsb_exists. exists w. split; [now apply list_elem_of_In|exact Hab]. }
  congruence.
Qed.

Lemma parsed_roads_come_from_ways_witness :
  let n1 := OsmNode "1" (72 # 1) (23 # 1) in
  let n2 := OsmNode "2" (73 # 1) (23 # 1) in
  let w1 := OsmWay "11" [("highway", "primary")]%string ["1"; "2"]%string in
  let w2 := OsmWay "12" [("building", "yes")]%string ["1"; "2"]%string in
  map id [Road "11" "primary" [(72 # 1, 23 # 1); (73 # 1, 23 # 1)]]
    `sublist_of` map way_id [w1; w2].
Proof.
  intros n1 n2 w1 w2.
  apply (proj2 (parsed_roads_come_from_ways (OsmFile [n1; n2] [w1; w2])
                  [Road "11" "primary" [(72 # 1, 23 # 1); (73 # 1, 23 # 1)]]
                  ltac:(vm_compute; reflexivity))).
Defined.


End ParseFacts.

(** ** extract_roads_zones.py: the grid and the assignment *)

Module GridFacts.

Import Py Geometry ExtractRoadsZones Terms GeometryFacts ExtractFacts.
Local Open Scope Q_scope.
Local Set Warnings "-inexact-float".

(** *** Zone names *)

Definition underscore : ascii := "_"%char.

Fixpoint no_underscore (s : string) : Prop :=
  match s with
  | EmptyString => True
  | String a rest => a <> underscore /\ no_underscore rest
  end.

Lemma digits_no_underscore (d : Decimal.uint) :
  no_underscore (NilEmpty.string_of_uint d).
Proof. induction d; simpl; auto; split; auto; discriminate. Qed.

Lemma str_no_underscore (i : Z) : (0 <= i)%Z -> no_underscore (str i).
Proof.
  intros Hi. unfold str. destruct i as [|p|p]; [| |lia].
  - simpl. split; [discriminate|exact I].
  - simpl. unfold NilZero.string_of_uint.
    destruct (Pos.to_uint p) eqn:E; try apply digits_no_underscore.
    simpl. split; [discriminate|exact I].
Qed.

Lemma str_inj (i j : Z) : str i = str j -> i = j.
Proof.
  unfold str. intros H. apply DecimalZ.to_int_inj.
  assert (Hi : NilZero.int_of_string (NilZero.string_of_int (Z.to_int i)) = Some (Z.to_int i)).
  { apply NilZero.isi; destruct i; simpl; try discriminate;
      intros [= E]; now apply (DecimalPos.Unsigned.to_uint_nonnil _ E). }
  assert (Hj : NilZero.int_of_string (NilZero.string_of_int (Z.to_int j)) = Some (Z.to_int j)).
  { apply NilZero.isi; destruct j; simpl; try discriminate;
      intros [= E]; now apply (DecimalPos.Unsigned.to_uint_nonnil _ E). }
  congruence.
Qed.

Lemma split_at_underscore (a a' b b' : string) :
  no_underscore a -> no_underscore a' ->
  (a ++ String underscore b)%string = (a' ++ String underscore b')%string ->
  a = a' /\ b = b'.
Proof.
  revert a'. induction a as [|c a IH]; intros [|c' a'] Ha Ha' H; simpl in *.
  - injection H as ->. auto.
  - injection H as H _. destruct Ha' as [Hc _]. congruence.
  - injection H as H _. destruct Ha as [Hc _]. congruence.
  - injection H as -> H. destruct Ha as [_ Ha], Ha' as [_ Ha'].
    destruct (IH a' Ha Ha' H) as [-> ->]. auto.
Qed.

Lemma zone_name_inj (i j i' j' : Z) :
  (0 <= i)%Z -> (0 <= i')%Z ->
  zone_name i j = zone_name i' j' -> i = i' /\ j = j'.
Proof.
  intros Hi Hi' H. unfold zone_name in H. simpl in H. injection H as H.
  apply split_at_underscore in H as [H1 H2]; try now apply str_no_underscore.
  split; now apply str_inj.
Qed.

Lemma map_flat_map {A B C : Type} (f : B -> C) (g : A -> list B) (l : list A) :
  map f (flat_map g l) = flat_map (fun x => map f (g x)) l.
Proof. induction l as [|x l IH]; simpl; [reflexivity|]. now rewrite map_app, IH. Qed.

Lemma NoDup_flat_map {A B : Type} (g : A -> list B) (l : list A) :
  NoDup l -> (forall x, x ∈ l -> NoDup (g x)) ->
  (forall x y b, x ∈ l -> y ∈ l -> b ∈ g x -> b ∈ g y -> x = y) ->
  NoDup (flat_map g l).
Proof.
  induction 1 as [|x l Hx Hl IH]; intros Hg Hd; simpl; [constructor|].
  apply NoDup_app. split; [apply Hg; constructor|]. split.
  - intros b Hb Hb'. apply list_elem_of_In, in_flat_map in Hb' as [y [Hy Hby]].
    apply list_elem_of_In in Hy, Hby.
    assert (x = y) by (apply (Hd x y b); auto; now constructor). subst y. contradiction.
  - apply IH.
    + intros y Hy. apply Hg. now constructor.
    + intros y y' b Hy Hy'. apply Hd; now constructor.
Qed.

Lemma cells_ids (xs ys : Z -> Q) (nx ny : Z) :
  map zone_id (cells xs ys nx ny)
  = flat_map (fun i => map (zone_name i) (range ny)) (range nx).
Proof.
  unfold cells. rewrite map_flat_map. apply flat_map_ext. intros i.
  rewrite map_map. reflexivity.
Qed.

Lemma cells_ids_NoDup (xs ys : Z -> Q) (nx ny : Z) :
  NoDup (map zone_id (cells xs ys nx ny)).
Proof.
  rewrite cells_ids. apply NoDup_flat_map.
  - apply NoDup_seqZ.
  - intros i Hi. apply elem_of_range in Hi. apply NoDup_fmap_2_strong; [|apply NoDup_seqZ].
    intros j j' _ _ H. now apply zone_name_inj in H; [|lia|lia].
  - intros i i' b Hi Hi' Hb Hb'. apply elem_of_range in Hi, Hi'.
    apply list_elem_of_fmap in Hb as [j [-> _]]. apply list_elem_of_fmap in Hb' as [j' [H _]].
    now apply zone_name_inj in H; [|lia|lia].
Qed.

(** *** Assignment in the grid *)






(** X12.  Every zone_id written by the assignment is the id of a zone of
    the zone table: the column holds null or the id of a zone whose
    projected polygon contains the projected centroid of the road. *)
Theorem assigned_ids_are_zone_ids (to_crs : point -> point) (centroid : LineString -> point)
    (roads : list road) (zones_gdf : list zone) :
  Forall (fun a => match a with
                   | None => True
                   | Some zid => zid ∈ map zone_id zones_gdf
                   end)
         (assign_roads to_crs centroid roads zones_gdf) /\
  (forall k r zid, roads !! k = Some r ->
     assign_roads to_crs centroid roads zones_gdf !! k = Some (Some zid) ->
     exists z, z ∈ zones_gdf /\ zone_id z = zid /\
       contains (map to_crs (polygon_of z)) (centroid (map to_crs (geometry r))) = true).
Proof.
  assert (Hkey : forall p zid, assign_zone p (zones_proj to_crs zones_gdf) = Some zid ->
            exists z, z ∈ zones_gdf /\ zone_id z = zid /\
                      contains (map to_crs (polygon_of z)) p = true).
  { intros p zid H. apply assign_zone_Some in H as [before [z' [after [Hz [_ [Hc Hid]]]]]].
    assert (Hin : z' ∈ zones_proj to_crs zones_gdf)
      by (rewrite Hz; apply list_elem_of_In, in_elt).
    unfold zones_proj in Hin. apply list_elem_of_fmap in Hin as [z [-> Hzin]].
    exists z. simpl in *. auto. }
  split.
  - unfold assign_roads. apply Forall_map, Forall_forall. intros r _.
    destruct (assign_zone _ _) as [zid|] eqn:E; [|exact I].
    apply Hkey in E as [z [Hz [<- _]]]. now apply list_elem_of_fmap_2.
  - intros k r zid Hr Ha. unfold assign_roads in Ha.
    change (@map road) with (@fmap list _ road) in Ha.
    rewrite list_lookup_fmap, Hr in Ha. simpl in Ha. injection Ha as Ha.
    now apply Hkey.
Qed.


(** *** The bounds of the road table *)









(** *** Edge behaviour of the grid block *)

Lemma linspace_negative (start stop : Q) (num : Z) :
  (num < 0)%Z -> linspace start stop num = Raise ValueError.
Proof. intros H. unfold linspace. destruct (Z.ltb_spec num 0); [reflexivity|lia]. Qed.

Lemma linspace_length (start stop : Q) (num : Z) :
  (0 <= num)%Z ->
  exists l, linspace start stop num = Ok l /\ length l = Z.to_nat num.
Proof.
  intros H. unfold linspace. destruct (Z.ltb_spec num 0); [lia|].
  eexists. split; [reflexivity|].
  set (y := map (fun v => v + start) _).
  assert (Hy : length y = Z.to_nat num).
  { subst y. rewrite length_map.
    destruct (0 <? num - 1)%Z; [destruct (Qeq_bool _ 0)|];
      rewrite !length_map; apply length_seqZ. }
  destruct (Z.ltb_spec 1 num); [|exact Hy].
  rewrite length_app, removelast_firstn_len, length_take, Hy. simpl. lia.
Qed.

Lemma subdivision_mono_le (start stop : Q) (n i k : Z) :
  (0 < n)%Z -> start <= stop -> (i <= k)%Z ->
  subdivision start stop n i <= subdivision start stop n k.
Proof.
  intros Hn Hle Hik. unfold subdivision.
  assert (Hpos : 0 <= (stop - start) / inject_Z n).
  { apply Qle_shift_div_l.
    - change 0 with (inject_Z 0). rewrite <- Zlt_Qlt. exact Hn.
    - lra. }
  assert (Hq : inject_Z i <= inject_Z k) by (rewrite <- Zle_Qle; exact Hik).
  nra.
Qed.

(** X14.  [np.linspace(start, stop, num)] as the grid block uses it: a
    negative [num] raises ValueError; otherwise [num] values are returned;
    from two values on, the first equals [start], the last is [stop] itself,
    and for [start <= stop] the values are in non-decreasing order between
    [start] and [stop]. *)
Theorem linspace_shape (start stop : Q) (num : Z) :
  ((num < 0)%Z -> linspace start stop num = Raise ValueError) /\
  ((0 <= num)%Z ->
     exists l, linspace start stop num = Ok l /\ length l = Z.to_nat num) /\
  ((2 <= num)%Z ->
     exists l, linspace start stop num = Ok l /\
       last l = Some stop /\
       (exists v, head l = Some v /\ v == start) /\
       (start <= stop ->
        forall (i j : nat) (vi vj : Q), (i <= j)%nat ->
          l !! i = Some vi -> l !! j = Some vj ->
          start <= vi /\ vi <= vj /\ vj <= stop)).
Proof.
  split; [apply linspace_negative|]. split; [apply linspace_length|].
  intros Hnum. replace num with (num - 1 + 1)%Z by lia.
  assert (Hn : (0 < num - 1)%Z) by lia.
  rewrite (linspace_unfold start stop (num - 1) Hn).
  destruct (linspace_grid start stop (num - 1) Hn) as [grid [Eg [Lg Vg]]].
  rewrite (linspace_unfold start stop (num - 1) Hn) in Eg. injection Eg as Eg.
  rewrite Eg. exists grid. split; [reflexivity|].
  split; [rewrite <- Eg; apply last_snoc|]. split.
  - destruct (Vg 0%Z ltac:(lia)) as [v [Hv Hq]]. exists v. split.
    + rewrite head_lookup. exact Hv.
    + rewrite Hq. apply subdivision_first.
  - intros Hle i j vi vj Hij Hi Hj.
    assert (Hi' : (i < length grid)%nat) by (eapply lookup_lt_Some; eauto).
    assert (Hj' : (j < length grid)%nat) by (eapply lookup_lt_Some; eauto).
    destruct (Vg (Z.of_nat i) ltac:(lia)) as [wi [Hwi Hqi]].
    destruct (Vg (Z.of_nat j) ltac:(lia)) as [wj [Hwj Hqj]].
    rewrite Nat2Z.id in Hwi, Hwj.
    assert (wi = vi) by congruence. assert (wj = vj) by congruence. subst wi wj.
    pose proof (subdivision_mono_le start stop (num - 1) 0 (Z.of_nat i) Hn Hle ltac:(lia)).
    pose proof (subdivision_mono_le start stop (num - 1) (Z.of_nat i) (Z.of_nat j)
                  Hn Hle ltac:(lia)).
    pose proof (subdivision_mono_le start stop (num - 1) (Z.of_nat j) (num - 1)
                  Hn Hle ltac:(lia)).
    pose proof (subdivision_first start stop (num - 1)).
    pose proof (subdivision_last start stop (num - 1) Hn).
    repeat split; lra.
Qed.

Lemma linspace_shape_witness :
  exists l, linspace 0 1 3 = Ok l /\ length l = 3%nat.
Proof. apply (proj1 (proj2 (linspace_shape 0 1 3))). lia. Defined.

Lemma make_zones_cells (minx miny maxx maxy buffer : Q) (nx ny : Z) :
  (-1 <= nx)%Z -> (-1 <= ny)%Z ->
  exists xs ys : Z -> Q,
    make_zones (minx, miny, maxx, maxy) buffer nx ny = Ok (cells xs ys nx ny).
Proof.
  intros Hnx Hny.
  destruct (linspace_length (minx - buffer) (maxx + buffer) (nx + 1)) as [gx [Ex Lx]]; [lia|].
  destruct (linspace_length (miny - buffer) (maxy + buffer) (ny + 1)) as [gy [Ey Ly]]; [lia|].
  exists (fun k => default 0 (gx !! Z.to_nat k)), (fun k => default 0 (gy !! Z.to_nat k)).
  unfold make_zones, expand. rewrite Ex. simpl. rewrite Ey. simpl.
  unfold cells.
  apply (for_in_append (range nx) _
           (fun i => map (cell (fun k => default 0 (gx !! Z.to_nat k))
                               (fun k => default 0 (gy !! Z.to_nat k)) i) (range ny)) []).
  intros i zones Hi. apply elem_of_range in Hi.
  rewrite <- flat_map_singleton. apply for_in_append.
  intros j zones' Hj. apply elem_of_range in Hj.
  now apply (cell_body_ok gx gy nx ny).
Qed.

Lemma cells_length_nat (xs ys : Z -> Q) (nx ny : Z) :
  length (cells xs ys nx ny) = (Z.to_nat nx * Z.to_nat ny)%nat.
Proof.
  unfold cells, range.
  rewrite (flat_map_constant_length (c := Z.to_nat ny)).
  - rewrite length_seqZ. lia.
  - intros i _. rewrite length_map. apply length_seqZ.
Qed.

(** X15.  The grid block never fails on an index: a cell count below -1
    makes [np.linspace] raise ValueError, and for every other pair of cell
    counts, and every box and buffer, zones are returned, as many as the
    product of the counts (none when a count is 0 or -1). *)
Theorem make_zones_total (total_bounds : Q * Q * Q * Q) (buffer : Q) (nx ny : Z) :
  ((nx < -1)%Z -> make_zones total_bounds buffer nx ny = Raise ValueError) /\
  ((-1 <= nx)%Z -> (ny < -1)%Z -> make_zones total_bounds buffer nx ny = Raise ValueError) /\
  ((-1 <= nx)%Z -> (-1 <= ny)%Z ->
     exists zones, make_zones total_bounds buffer nx ny = Ok zones /\
       length zones = (Z.to_nat nx * Z.to_nat ny)%nat).
Proof.
  destruct total_bounds as [[[minx miny] maxx] maxy]. split; [|split].
  - intros H. unfold make_zones, expand.
    now rewrite (linspace_negative (minx - buffer) (maxx + buffer) (nx + 1)) by lia.
  - intros Hnx H. unfold make_zones, expand.
    destruct (linspace_length (minx - buffer) (maxx + buffer) (nx + 1)) as [gx [Ex _]]; [lia|].
    rewrite Ex. simpl.
    now rewrite (linspace_negative (miny - buffer) (maxy + buffer) (ny + 1)) by lia.
  - intros Hnx Hny.
    destruct (make_zones_cells minx miny maxx maxy buffer nx ny Hnx Hny) as [xs [ys Hmk]].
    exists (cells xs ys nx ny). split; [exact Hmk|apply cells_length_nat].
Qed.

Lemma make_zones_total_witness :
  make_zones (0, 0, 1, 1) 0 (-2) 3 = Raise ValueError /\
  exists zones, make_zones (0, 0, 1, 1) 0 3 0 = Ok zones /\ length zones = 0%nat.
Proof.
  split.
  - apply (proj1 (make_zones_total (0, 0, 1, 1) 0 (-2) 3)). lia.
  - destruct (proj2 (proj2 (make_zones_total (0, 0, 1, 1) 0 3 0))) as [zones [H1 H2]];
      [lia|lia|].
    exists zones. split; [exact H1|exact H2].
Defined.


(** X10.  The zones of a grid have pairwise distinct ids: the name
    z{i}_{j} determines the cell (i, j), so the zone table returned by the
    grid block has no repeated zone_id, whatever the bounds, the buffer and
    the cell counts. *)
Theorem zone_ids_distinct (total_bounds : Q * Q * Q * Q) (buffer : Q) (nx ny : Z)
    (zones : list zone) :
  (forall i j i' j', (0 <= i)%Z -> (0 <= i')%Z ->
     zone_name i j = zone_name i' j' -> i = i' /\ j = j') /\
  (make_zones total_bounds buffer nx ny = Ok zones -> NoDup (map zone_id zones)).
Proof.
  split; [apply zone_name_inj|].
  intros Hmk. destruct total_bounds as [[[minx miny] maxx] maxy].
  destruct (Z_lt_le_dec nx (-1)) as [Hnx|Hnx].
  { unfold make_zones, expand in Hmk.
    rewrite (linspace_negative (minx - buffer) (maxx + buffer) (nx + 1)) in Hmk by lia.
    discriminate. }
  destruct (Z_lt_le_dec ny (-1)) as [Hny|Hny].
  { unfold make_zones, expand in Hmk.
    destruct (linspace_length (minx - buffer) (maxx + buffer) (nx + 1)) as [gx [Ex _]]; [lia|].
    rewrite Ex in Hmk. simpl in Hmk.
    rewrite (linspace_negative (miny - buffer) (maxy + buffer) (ny + 1)) in Hmk by lia.
    discriminate. }
  destruct (make_zones_cells minx miny maxx maxy buffer nx ny Hnx Hny) as [xs [ys Hv]].
  rewrite Hv in Hmk. injection Hmk as <-. apply cells_ids_NoDup.
Qed.

Lemma zone_ids_distinct_witness :
  exists zones, make_zones (0, 0, 2, 2) 0 2 2 = Ok zones /\ NoDup (map zone_id zones).
Proof.
  destruct (make_zones (0, 0, 2, 2) 0 2 2) as [zones|e] eqn:E.
  - exists zones. split; [reflexivity|].
    apply (proj2 (zone_ids_distinct (0, 0, 2, 2) 0 2 2 zones)). exact E.
  - vm_compute in E. discriminate.
Defined.

(** *** The ids and the order of the zones *)











(** *** No validation of the configuration *)

Lemma linspace64_length (start stop : float) (num : Z) :
  (0 <= num)%Z ->
  exists l, Binary64.linspace start stop num = Ok l /\ length l = Z.to_nat num.
Proof.
  intros H. unfold Binary64.linspace. destruct (Z.ltb_spec num 0); [lia|].
  eexists. split; [reflexivity|].
  set (y := map (fun v => (v + start)%float) _).
  assert (Hy : length y = Z.to_nat num).
  { subst y. rewrite length_map.
    destruct (0 <? num - 1)%Z; [destruct (_ =? 0)%float|];
      rewrite !length_map; apply length_seqZ. }
  destruct (Z.ltb_spec 1 num); [|exact Hy].
  rewrite length_app, removelast_firstn_len, length_take, Hy. simpl. lia.
Qed.

(** A loop whose body adds [m] rows or raises an exception of the kind [bad]
    adds [m] rows for every element, or raises an exception of that kind. *)
Lemma for_in_rows {A B : Type} (l : list A) (body : A -> list B -> result (list B))
    (m : nat) (bad : exn -> Prop) :
  (forall x s, x ∈ l ->
     (exists ys, body x s = Ok (s ++ ys) /\ length ys = m) \/
     (exists e, body x s = Raise e /\ bad e)) ->
  forall s,
    (exists more, for_in l body s = Ok (s ++ more) /\ length more = (length l * m)%nat) \/
    (exists e, for_in l body s = Raise e /\ bad e).
Proof.
  induction l as [|x l IH]; intros H s.
  - left. exists []. split; [now rewrite app_nil_r|reflexivity].
  - simpl. destruct (H x s ltac:(constructor)) as [[ys [E Hys]]|[e [E He]]]; rewrite E; simpl.
    + destruct (IH (fun x' s' Hx' => H x' s' ltac:(now constructor)) (s ++ ys))
        as [[more [E' Hmore]]|[e [E' He]]].
      * left. exists (ys ++ more). rewrite E', app_assoc. split; [reflexivity|].
        rewrite length_app. lia.
      * right. exists e. now split.
    + right. exists e. now split.
Qed.

Section Shapely.

Context {polygon : Type}.
Variable Polygon : list (float * float) -> result polygon.

Lemma cell_body64_step (x_grid y_grid : list float) (nx ny i j : Z)
    (zones : list (string * polygon)) :
  length x_grid = Z.to_nat (nx + 1) -> length y_grid = Z.to_nat (ny + 1) ->
  (0 <= i < nx)%Z -> (0 <= j < ny)%Z ->
  (exists ys, Binary64.cell_body Polygon x_grid y_grid i j zones = Ok (zones ++ ys)
              /\ length ys = 1%nat) \/
  (exists e, Binary64.cell_body Polygon x_grid y_grid i j zones = Raise e
             /\ exists coords, Polygon coords = Raise e).
Proof.
  intros Hx Hy Hi Hj. unfold Binary64.cell_body.
  destruct (lookup_lt_is_Some_2 x_grid (Z.to_nat i)) as [xi Hxi]; [lia|].
  destruct (lookup_lt_is_Some_2 x_grid (Z.to_nat (i + 1))) as [xi1 Hxi1]; [lia|].
  destruct (lookup_lt_is_Some_2 y_grid (Z.to_nat j)) as [yj Hyj]; [lia|].
  destruct (lookup_lt_is_Some_2 y_grid (Z.to_nat (j + 1))) as [yj1 Hyj1]; [lia|].
  rewrite (getitem_ok x_grid i xi), (getitem_ok y_grid j yj),
    (getitem_ok x_grid (i + 1) xi1), (getitem_ok y_grid (j + 1) yj1)
    by (assumption || lia).
  cbn [mbind result_bind bind].
  destruct (Polygon [(xi, yj); (xi1, yj); (xi1, yj1); (xi, yj1)]) as [p|e] eqn:E.
  - left. eexists. split; reflexivity.
  - right. exists e. split; [reflexivity|]. eauto.
Qed.

Lemma make_zones64_cases (total_bounds : float * float * float * float) (buffer : float)
    (nx ny : Z) :
  (0 <= nx)%Z -> (0 <= ny)%Z ->
  (exists zones, Binary64.make_zones Polygon total_bounds buffer nx ny = Ok zones
                 /\ length zones = Z.to_nat (nx * ny)) \/
  (exists e, Binary64.make_zones Polygon total_bounds buffer nx ny = Raise e
             /\ exists coords, Polygon coords = Raise e).
Proof.
  intros Hnx Hny. unfold Binary64.make_zones.
  destruct (Binary64.expand total_bounds buffer) as [[[minx miny] maxx] maxy].
  destruct (linspace64_length minx maxx (nx + 1)) as [x_grid [-> Hx]]; [lia|].
  destruct (linspace64_length miny maxy (ny + 1)) as [y_grid [-> Hy]]; [lia|].
  cbn [mbind result_bind bind].
  destruct (for_in_rows (range nx)
              (fun i zones => for_in (range ny) (Binary64.cell_body Polygon x_grid y_grid i) zones)
              (Z.to_nat ny) (fun e => exists coords, Polygon coords = Raise e)) with (s := @nil (string * polygon))
    as [[more [E Hmore]]|[e [E He]]].
  - intros i s Hi. apply elem_of_range in Hi.
    destruct (for_in_rows (range ny) (Binary64.cell_body Polygon x_grid y_grid i) 1%nat
                (fun e => exists coords, Polygon coords = Raise e)) with (s := s)
      as [[more [E Hmore]]|[e [E He]]].
    + intros j s' Hj. apply elem_of_range in Hj.
      now apply (cell_body64_step x_grid y_grid nx ny).
    + left. exists more. split; [exact E|].
      rewrite Hmore. unfold range. rewrite length_seqZ. lia.
    + right. exists e. now split.
  - left. exists more. split; [exact E|].
    rewrite Hmore. unfold range. rewrite length_seqZ. nia.
  - right. exists e. now split.
Qed.

(** C8, amended.  Nothing is rejected as a configuration error.  The
    buffer 0.01 and the resolution 10 x 10 are literals of [main], and no
    check of the box precedes or accompanies the grid: for every bounds, the
    grid block returns 100 zones, unless [Polygon] itself refuses a ring;
    the only exceptions that leave the grid block are those of [Polygon]. *)
Theorem make_zones_never_rejects (total_bounds : float * float * float * float) :
  (forall e, Binary64.main_zones Polygon total_bounds = Raise e ->
     exists coords, Polygon coords = Raise e) /\
  ((exists zones, Binary64.main_zones Polygon total_bounds = Ok zones
                  /\ length zones = 100%nat) \/
   (exists e coords, Binary64.main_zones Polygon total_bounds = Raise e
                     /\ Polygon coords = Raise e)) /\
  ((forall coords, exists p, Polygon coords = Ok p) ->
   exists zones, Binary64.main_zones Polygon total_bounds = Ok zones
                 /\ length zones = 100%nat).
Proof.
  unfold Binary64.main_zones.
  destruct (make_zones64_cases total_bounds 0.01%float 10 10)
    as [[zones [E Hlen]]|[e [E [coords He]]]]; [lia|lia| |].
  - rewrite E. split; [discriminate|]. split; [left|intros _]; exists zones; now split.
  - rewrite E. split; [intros e' [= <-]; eauto|]. split; [right; eauto|].
    intros Htotal. destruct (Htotal coords) as [p Hp]. congruence.
Qed.

End Shapely.

(** A box around Ahmedabad, with a [Polygon] that accepts every ring,
    through the theorem: 100 zones. *)
Lemma make_zones_never_rejects_witness :
  exists zones,
    Binary64.main_zones (fun coords => Ok coords) (72.4, 22.9, 72.7, 23.2)%float = Ok zones
    /\ length zones = 100%nat.
Proof.
  apply (proj2 (proj2 (make_zones_never_rejects (fun coords => Ok coords)
                         (72.4, 22.9, 72.7, 23.2)%float))).
  intros coords. now exists coords.
Defined.

(** C8 as stated fails.  A file with one highway between the nodes
    (1e17, 23) and (1e17, 23.5): the parse returns the road, whose bounds
    are (1e17, 23, 1e17, 23.5), four numbers of binary64.  In binary64 the
    buffer 0.01 is absorbed by 1e17: the expanded box has minx = maxx, a
    width of zero, and it is not rejected: the eleven boundaries of the
    columns are all 1e17, and the grid block returns 100 zones, every one
    of them a ring of zero width. *)
Lemma zero_width_box_is_gridded :
  let bounds := (1e17, 23, 1e17, 23.5)%float in
  let f := OsmFile [OsmNode "1" (10 ^ 17) 23; OsmNode "2" (10 ^ 17) (47 # 2)]
                   [OsmWay "1" [("highway", "primary")]%string ["1"; "2"]%string] in
  (exists roads, parse_osm_roads f = Ok roads /\
     total_bounds roads = Some (10 ^ 17, 23, 10 ^ 17, 47 # 2)) /\
  (Process.value 1e17 == 10 ^ 17 /\ Process.value 23 == 23 /\ Process.value 23.5 == 47 # 2) /\
  (let '(minx, _, maxx, _) := Binary64.expand bounds 0.01 in
   minx = 1e17%float /\ maxx = 1e17%float /\ (maxx - minx)%float = 0%float) /\
  Binary64.linspace 1e17 1e17 11 = Ok (repeat 1e17%float 11) /\
  exists zones,
    Binary64.main_zones (fun coords => Ok coords) bounds = Ok zones /\
    length zones = 100%nat /\
    map (fun z => map fst (snd z)) zones = repeat (repeat 1e17%float 4) 100.
Proof.
  split; [|split; [|split; [|split]]].
  - eexists. split; vm_compute; reflexivity.
  - repeat split; vm_compute; reflexivity.
  - vm_compute. repeat split; reflexivity.
  - vm_compute. reflexivity.
  - eexists. split; [vm_compute; reflexivity|]. split; vm_compute; reflexivity.
Qed.


End GridFacts.

(** ** extract_roads_zones.py: duplicates in the master road table *)

Module DedupFacts.

Import Geometry ExtractRoadsZones.

Section Generic.

Context {A : Type} (same : A -> A -> bool).

Lemma drop_from_sublist (earlier rows : list A) :
  drop_duplicates_from same earlier rows `sublist_of` rows.
Proof.
  revert earlier. induction rows as [|r rows IH]; intros earlier; simpl; [constructor|].
  destruct (existsb (same r) earlier); simpl.
  - apply sublist_cons, IH.
  - apply sublist_skip, IH.
Qed.

(** No kept row is the same as a row passed before. *)
Lemma drop_from_fresh (earlier rows : list A) :
  Forall (fun b => existsb (same b) earlier = false)
         (drop_duplicates_from same earlier rows).
Proof.
  revert earlier. induction rows as [|r rows IH]; intros earlier; simpl; [constructor|].
  apply Forall_app. split.
  - destruct (existsb (same r) earlier) eqn:E; constructor; [exact E|constructor].
  - eapply Forall_impl; [apply (IH (r :: earlier))|].
    intros b Hb. simpl in Hb. apply orb_false_iff in Hb. tauto.
Qed.

(** No kept row is the same as a row kept before it. *)
Lemma drop_from_sorted (earlier rows : list A) :
  StronglySorted (fun a b => same b a = false) (drop_duplicates_from same earlier rows).
Proof.
  revert earlier. induction rows as [|r rows IH]; intros earlier; simpl; [constructor|].
  destruct (existsb (same r) earlier); simpl; [apply IH|].
  constructor; [apply IH|].
  eapply Forall_impl; [apply (drop_from_fresh (r :: earlier) rows)|].
  intros b Hb. simpl in Hb. apply orb_false_iff in Hb. tauto.
Qed.

Lemma drop_duplicates_head (rows : list A) :
  head (drop_duplicates same rows) = head rows.
Proof. destruct rows; reflexivity. Qed.

End Generic.

Lemma same_id_true (r1 r2 : road) : same_id r1 r2 = true <-> id r1 = id r2.
Proof. unfold same_id. apply bool_decide_eq_true. Qed.

Lemma same_id_false (r1 r2 : road) : same_id r1 r2 = false <-> id r1 <> id r2.
Proof. unfold same_id. apply bool_decide_eq_false. Qed.

Lemma sorted_ids_NoDup (l : list road) :
  StronglySorted (fun a b => same_id b a = false) l -> NoDup (map id l).
Proof.
  induction 1 as [|a l Hl IH Ha]; simpl; [constructor|].
  constructor; [|exact IH].
  intros Hin. apply list_elem_of_fmap in Hin as [b [Hid Hb]].
  rewrite Forall_forall in Ha. specialize (Ha b Hb).
  apply same_id_false in Ha. congruence.
Qed.

(** Every id of the table is the id of an earlier or of a kept row. *)
Lemma drop_from_ids (earlier rows : list road) (r : road) :
  r ∈ rows ->
  id r ∈ map id earlier \/ id r ∈ map id (drop_duplicates_from same_id earlier rows).
Proof.
  revert earlier. induction rows as [|r' rows IH]; intros earlier Hr; [inversion Hr|].
  simpl. apply elem_of_cons in Hr as [->|Hr].
  - destruct (existsb (same_id r') earlier) eqn:E.
    + left. apply existsb_exists in E as [e [He Hs]]. apply same_id_true in Hs.
      rewrite Hs. apply list_elem_of_fmap_2. now apply list_elem_of_In.
    + right. simpl. constructor.
  - destruct (IH (r' :: earlier) Hr) as [H|H].
    + simpl in H. apply elem_of_cons in H as [H|H]; [|now left].
      destruct (existsb (same_id r') earlier) eqn:E.
      * left. apply existsb_exists in E as [e [He Hs]]. apply same_id_true in Hs.
        rewrite H, Hs. apply list_elem_of_fmap_2. now apply list_elem_of_In.
      * right. simpl. rewrite H. constructor.
    + right. rewrite map_app. apply elem_of_app. now right.
Qed.

(** X16.  The two [drop_duplicates] of [main] keep a subsequence of the
    road table that starts with the first road: after the pass on [id] every
    id of the table is still present and no id is repeated; after the pass
    on [geometry] no id is repeated and no kept road has the geometry of a
    road kept before it. *)
Theorem drop_duplicate_roads_spec (roads_master : list road) :
  drop_duplicate_roads roads_master `sublist_of` roads_master /\
  head (drop_duplicate_roads roads_master) = head roads_master /\
  NoDup (map id (drop_duplicates same_id roads_master)) /\
  (forall r, r ∈ roads_master ->
     id r ∈ map id (drop_duplicates same_id roads_master)) /\
  NoDup (map id (drop_duplicate_roads roads_master)) /\
  StronglySorted (fun a b => same_geometry b a = false)
                 (drop_duplicate_roads roads_master).
Proof.
  unfold drop_duplicate_roads, drop_duplicates.
  set (by_id := drop_duplicates_from same_id [] roads_master).
  assert (Hid : NoDup (map id by_id)) by apply sorted_ids_NoDup, drop_from_sorted.
  assert (Hsub : drop_duplicates_from same_geometry [] by_id `sublist_of` by_id)
    by apply drop_from_sublist.
  split; [|split; [|split; [|split; [|split]]]].
  - etransitivity; [exact Hsub|apply drop_from_sublist].
  - change (head (drop_duplicates same_geometry (drop_duplicates same_id roads_master))
            = head roads_master).
    now rewrite !drop_duplicates_head.
  - exact Hid.
  - intros r Hr. destruct (drop_from_ids [] roads_master r Hr) as [H|H]; [inversion H|exact H].
  - eapply sublist_NoDup; [exact Hid|apply (fmap_sublist id); exact Hsub].
  - apply drop_from_sorted.
Qed.

Lemma drop_from_app {A : Type} (same : A -> A -> bool) (earlier l1 l2 : list A) :
  drop_duplicates_from same earlier (l1 ++ l2)
  = drop_duplicates_from same earlier l1
    ++ drop_duplicates_from same (rev l1 ++ earlier) l2.
Proof.
  revert earlier. induction l1 as [|r l1 IH]; intros earlier; simpl; [reflexivity|].
  rewrite IH, <- !app_assoc. reflexivity.
Qed.

Lemma drop_from_all_seen {A : Type} (same : A -> A -> bool) (earlier rows : list A) :
  (forall r, r ∈ rows -> existsb (same r) earlier = true) ->
  drop_duplicates_from same earlier rows = [].
Proof.
  revert earlier. induction rows as [|r rows IH]; intros earlier H; simpl; [reflexivity|].
  rewrite (H r) by constructor. simpl. apply IH.
  intros r' Hr'. simpl. rewrite (H r') by (now constructor). apply orb_true_r.
Qed.

(** X23.  A road table concatenated with a copy of itself, as when the
    same OSM file is read twice, is reduced to what the single table is
    reduced to: the pass on [id] removes the whole second copy. *)
Theorem duplicate_file_is_dropped (roads : list road) :
  drop_duplicates same_id (roads ++ roads) = drop_duplicates same_id roads /\
  drop_duplicate_roads (roads ++ roads) = drop_duplicate_roads roads.
Proof.
  assert (H : drop_duplicates same_id (roads ++ roads) = drop_duplicates same_id roads).
  { unfold drop_duplicates. rewrite drop_from_app, app_nil_r.
    rewrite (drop_from_all_seen same_id (rev roads) roads); [apply app_nil_r|].
    intros r Hr. apply existsb_exists. exists r. split.
    - apply in_rev. rewrite rev_involutive. now apply list_elem_of_In.
    - now apply same_id_true. }
  split; [exact H|]. unfold drop_duplicate_roads. now rewrite H.
Qed.


End DedupFacts.

(** ** process.py: the zone table, the mean, the features *)

Module AggregateFacts.

Import Process Terms ProcessFacts.
Local Open Scope Q_scope.

Lemma assigned_other_zone (z z' : string) (rs1 rs2 : list road_row) (r : road_row) :
  zone_id r = Some z -> z <> z' ->
  assigned z' (rs1 ++ r :: rs2) = assigned z' (rs1 ++ rs2).
Proof.
  intros Hr Hne. rewrite !assigned_app, assigned_cons.
  destruct (decide (zone_id r = Some z')); [congruence|reflexivity].
Qed.

(** X17.  The aggregate is the zone table with a congestion column: one
    row per zone row, with the same ids in the same order, whatever the
    roads; and a road whose zone_id is not an id of the zone table changes
    nothing. *)
Theorem aggregate_keeps_zone_table (roads_gdf : list road_row) (zones_gdf : list string) :
  map zone (aggregate roads_gdf zones_gdf) = zones_gdf /\
  (forall rs1 r rs2 z, roads_gdf = rs1 ++ r :: rs2 ->
     zone_id r = Some z -> z ∉ zones_gdf ->
     aggregate roads_gdf zones_gdf = aggregate (rs1 ++ rs2) zones_gdf).
Proof.
  split.
  - rewrite aggregate_zone_mean, map_map. simpl. apply map_id.
  - intros rs1 r rs2 z -> Hr Hz. rewrite !aggregate_zone_mean.
    apply map_ext_in. intros z' Hz'. f_equal. unfold zone_mean.
    rewrite (assigned_other_zone z z' rs1 rs2 r Hr); [reflexivity|].
    intros ->. apply Hz. now apply list_elem_of_In.
Qed.

Lemma aggregate_keeps_zone_table_witness :
  aggregate [RoadRow (Some "z0_0"%string) (1 # 2); RoadRow (Some "z9_9"%string) 1]
            ["z0_0"%string; "z0_1"%string]
  = aggregate [RoadRow (Some "z0_0"%string) (1 # 2)] ["z0_0"%string; "z0_1"%string].
Proof.
  apply (proj2 (aggregate_keeps_zone_table
                  [RoadRow (Some "z0_0"%string) (1 # 2); RoadRow (Some "z9_9"%string) 1]
                  ["z0_0"%string; "z0_1"%string])
           [RoadRow (Some "z0_0"%string) (1 # 2)] (RoadRow (Some "z9_9"%string) 1) []
           "z9_9"%string eq_refl eq_refl).
  intros H. apply list_elem_of_In in H. simpl in H.
  destruct H as [H|[H|[]]]; discriminate.
Defined.

(** *** The order of the roads *)

Lemma assigned_Permutation (z : string) (rs rs' : list road_row) :
  Permutation rs rs' -> Permutation (assigned z rs) (assigned z rs').
Proof.
  induction 1 as [|r l l' _ IH|r r' l|l l' l'' _ IH1 _ IH2].
  - constructor.
  - rewrite !assigned_cons. destruct (decide _); [constructor|]; exact IH.
  - rewrite !assigned_cons.
    destruct (decide (zone_id r' = Some z)), (decide (zone_id r = Some z));
      try reflexivity. constructor.
  - etransitivity; eassumption.
Qed.

Lemma assigned_nil_Permutation (z : string) (rs rs' : list road_row) :
  Permutation rs rs' -> assigned z rs = [] -> assigned z rs' = [].
Proof.
  intros H E. pose proof (assigned_Permutation z rs rs' H) as Ha.
  rewrite E in Ha. now apply Permutation_nil.
Qed.

(** X18.  Grouping does not depend on the order of the road table: two
    tables with the same rows in a different order give every zone the
    same congestion values, up to their order within the group; the same
    keys have a group, so the same zones take the default of [fillna]; and
    the zone column of the aggregate is the same.  (The mean of a group adds
    its values in the order of the rows.) *)
Theorem groups_order_independent (roads roads' : list road_row) (zones_gdf : list string) :
  Permutation roads roads' ->
  (forall z, Permutation (default [] (groupby roads !! z))
                         (default [] (groupby roads' !! z))) /\
  (forall z, groupby roads !! z = None <-> groupby roads' !! z = None) /\
  (forall z, zones_congestion roads !! z = None <-> zones_congestion roads' !! z = None) /\
  map zone (aggregate roads zones_gdf) = map zone (aggregate roads' zones_gdf).
Proof.
  intros H.
  assert (Hnone : forall z, groupby roads !! z = None <-> groupby roads' !! z = None).
  { intros z. rewrite !groupby_lookup. split; intros E.
    - rewrite (assigned_nil_Permutation z roads roads' H); [reflexivity|].
      destruct (assigned z roads); [reflexivity|discriminate].
    - rewrite (assigned_nil_Permutation z roads' roads (Permutation_sym H)); [reflexivity|].
      destruct (assigned z roads'); [reflexivity|discriminate]. }
  split; [|split; [exact Hnone|split]].
  - intros z. rewrite !groupby_lookup.
    pose proof (assigned_Permutation z roads roads' H) as Ha.
    destruct (assigned z roads), (assigned z roads'); exact Ha.
  - intros z. unfold zones_congestion. rewrite !lookup_fmap, !fmap_None. apply Hnone.
  - rewrite !aggregate_zone_mean, !map_map. reflexivity.
Qed.

Lemma groups_order_independent_witness :
  Permutation
    (default [] (groupby [RoadRow (Some "z0_0"%string) (1 # 5);
                          RoadRow (Some "z0_0"%string) (2 # 5)] !! "z0_0"%string))
    (default [] (groupby [RoadRow (Some "z0_0"%string) (2 # 5);
                          RoadRow (Some "z0_0"%string) (1 # 5)] !! "z0_0"%string)).
Proof.
  apply (proj1 (groups_order_independent
                  [RoadRow (Some "z0_0"%string) (1 # 5); RoadRow (Some "z0_0"%string) (2 # 5)]
                  [RoadRow (Some "z0_0"%string) (2 # 5); RoadRow (Some "z0_0"%string) (1 # 5)]
                  [] (perm_swap _ _ _))).
Defined.

(** *** Conservation *)

Lemma hits_of_road (zid : option string) (zones_gdf : list string) :
  NoDup zones_gdf ->
  list_sum (map (fun z => if decide (zid = Some z) then 1%nat else 0%nat) zones_gdf)
  = match zid with
    | Some z => if bool_decide (z ∈ zones_gdf) then 1%nat else 0%nat
    | None => 0%nat
    end.
Proof.
  induction 1 as [|z zs Hz Hzs IH]; simpl.
  - destruct zid; reflexivity.
  - rewrite IH. destruct zid as [z'|]; [|destruct (decide _); [discriminate|reflexivity]].
    destruct (decide (Some z' = Some z)) as [[= ->]|Hne].
    + rewrite (bool_decide_eq_true_2 (z ∈ z :: zs)) by constructor.
      now rewrite (bool_decide_eq_false_2 (z ∈ zs)) by exact Hz.
    + assert (z' <> z) by congruence.
      destruct (bool_decide (z' ∈ zs)) eqn:E.
      * apply bool_decide_eq_true in E.
        now rewrite (bool_decide_eq_true_2 (z' ∈ z :: zs)) by (now constructor).
      * apply bool_decide_eq_false in E.
        rewrite (bool_decide_eq_false_2 (z' ∈ z :: zs)); [reflexivity|].
        intros Hin. apply elem_of_cons in Hin as [?|?]; contradiction.
Qed.

Lemma list_sum_map_add (f g : string -> nat) (l : list string) :
  list_sum (map (fun z => (f z + g z)%nat) l)
  = (list_sum (map f l) + list_sum (map g l))%nat.
Proof. induction l; simpl; lia. Qed.

Lemma counts_conserved (roads_gdf : list road_row) (zones_gdf : list string) :
  NoDup zones_gdf ->
  list_sum (map (fun z => length (assigned z roads_gdf)) zones_gdf)
  = length (List.filter (in_zone_table zones_gdf) roads_gdf).
Proof.
  intros Hnd. induction roads_gdf as [|r rs IH].
  - simpl. induction zones_gdf; simpl; [reflexivity|]. inversion Hnd; auto.
  - rewrite (map_ext _ (fun z => ((if decide (zone_id r = Some z) then 1 else 0)
                                 + length (assigned z rs))%nat)).
    2:{ intros z. rewrite assigned_cons. destruct (decide _); reflexivity. }
    rewrite list_sum_map_add, IH, (hits_of_road (zone_id r) zones_gdf Hnd).
    simpl. unfold in_zone_table at 2.
    destruct (zone_id r) as [z|]; [|reflexivity].
    destruct (bool_decide (z ∈ zones_gdf)); reflexivity.
Qed.

(** X22.  With pairwise distinct zone ids no road is counted twice and
    none is lost by the grouping: the sizes of the groups of the zones add
    up to the number of roads whose zone_id is an id of the zone table. *)
Theorem groups_partition_roads (roads_gdf : list road_row) (zones_gdf : list string) :
  NoDup zones_gdf ->
  list_sum (map (fun z => length (default [] (groupby roads_gdf !! z))) zones_gdf)
    = length (List.filter (in_zone_table zones_gdf) roads_gdf).
Proof.
  intros Hnd. rewrite <- (counts_conserved roads_gdf zones_gdf Hnd).
  f_equal. apply map_ext. intros z. rewrite groupby_lookup.
  now destruct (assigned z roads_gdf).
Qed.

Lemma groups_partition_roads_witness :
  let roads := [RoadRow (Some "z0_0"%string) (1 # 5); RoadRow None 1;
                RoadRow (Some "z0_1"%string) (2 # 5); RoadRow (Some "z0_0"%string) (3 # 5)] in
  list_sum (map (fun z => length (default [] (groupby roads !! z)))
                ["z0_0"%string; "z0_1"%string]) = 3%nat.
Proof.
  intros roads.
  rewrite (groups_partition_roads roads ["z0_0"%string; "z0_1"%string]
             ltac:(repeat constructor; intros H; apply list_elem_of_In in H;
                   simpl in H; intuition discriminate)).
  reflexivity.
Defined.


End AggregateFacts.

(** ** process.py: clipping and features *)

Module FeatureFacts.

Import Py Process ProcessFacts.
Local Open Scope Q_scope.
Local Set Warnings "-inexact-float".

(** X20.  Clipping to [0,1] is idempotent, also on NaN; it keeps the order
    of two predictions; its result is NaN exactly when the prediction is;
    and a prediction that is already between 0 and 1 is stored as a float
    that compares equal to it. *)
Theorem clip_properties (v w : float) :
  clip1 (clip1 v 0 1) 0 1 = clip1 v 0 1 /\
  ((v <=? w)%float = true -> (clip1 v 0 1 <=? clip1 w 0 1)%float = true) /\
  is_nan (clip1 v 0 1) = is_nan v /\
  (unit_float v -> (clip1 v 0 1 =? v)%float = true).
Proof.
  split; [|split; [|split]].
  - destruct (is_nan v) eqn:Hn.
    + now rewrite !(clip1_nan v 0 1 Hn).
    + destruct (clip1_cases v Hn) as [[_ ->]|[[H0 [H1 E]]|[_ ->]]];
        [reflexivity| |reflexivity].
      rewrite E. exact E.
  - intros Hle. destruct (Float64.leb_not_nan v w Hle) as [Hv Hw].
    destruct (clip1_cases v Hv) as [[V ->]|[[V0 [V1 ->]]|[V ->]]];
      destruct (clip1_cases w Hw) as [[W ->]|[[W0 [W1 ->]]|[W ->]]];
      try reflexivity.
    + now apply Float64.ltb_leb.
    + pose proof (Float64.leb_trans v w 0 Hle W) as H.
      rewrite (Float64.ltb_not_leb 0 v V0) in H. discriminate.
    + exact Hle.
    + now apply Float64.ltb_leb.
    + pose proof (Float64.leb_trans 1 v 0 V (Float64.leb_trans v w 0 Hle W)) as H.
      discriminate.
    + pose proof (Float64.leb_trans 1 v w V Hle) as H.
      rewrite (Float64.ltb_not_leb w 1 W1) in H. discriminate.
  - destruct (is_nan v) eqn:Hn.
    + now rewrite (clip1_nan v 0 1 Hn).
    + apply unit_float_not_nan. now apply clip1_unit_float.
  - intros [H0 H1]. now apply clip1_inside.
Qed.

(** The predictions 3.5 and 0.5, through the theorem: 0.5 is at most 3.5,
    and so are their clipped values, 0.5 and 1. *)
Lemma clip_properties_witness :
  (0.5 <=? 3.5)%float = true /\ (clip1 0.5 0 1 <=? clip1 3.5 0 1)%float = true.
Proof.
  split; [reflexivity|].
  apply (proj1 (proj2 (clip_properties 0.5 3.5))). reflexivity.
Defined.

(** *** The time argument *)

Definition colon : ascii := ":"%char.

Fixpoint colon_free (s : string) : Prop :=
  match s with
  | EmptyString => True
  | String c rest => c <> colon /\ colon_free rest
  end.

Lemma split_nonempty (s : string) : split colon s <> [].
Proof.
  destruct s as [|c s]; simpl; [discriminate|].
  destruct (Ascii.eqb c colon); [discriminate|]. destruct (split colon s); discriminate.
Qed.

Lemma split_colon_free (s : string) : colon_free s -> split colon s = [s].
Proof.
  induction s as [|c s IH]; simpl; [reflexivity|]. intros [Hc Hs].
  destruct (Ascii.eqb_spec c colon); [contradiction|]. now rewrite IH.
Qed.

Lemma split_at_colon (h rest : string) :
  colon_free h -> split colon (h ++ String colon rest) = h :: split colon rest.
Proof.
  induction h as [|c h IH]; simpl.
  - reflexivity.
  - intros [Hc Hh]. destruct (Ascii.eqb_spec c colon); [contradiction|]. now rewrite IH.
Qed.

Section AnyLibrary.

Context {Row : Type}.
Variable int : string -> result Z.
Variable road_length : Row -> Q.

Lemma features_of_pieces (gdf : list Row) (t h m : string) (more : list string) :
  split colon t = h :: m :: more ->
  prepare_features int road_length gdf t
  = (hour ← int h; minute ← int m;
     Ok (map (fun r => (hour, minute, road_length r)) gdf)).
Proof.
  intros Hs. unfold prepare_features. fold colon. rewrite Hs. reflexivity.
Qed.

(** X21.  The features read the hour before the first colon and the minute
    between the first and the second colon of the time argument, and
    nothing else of it: the seconds, and whatever follows the second colon,
    change nothing.  An argument without a colon never yields features: it
    raises the exception of [int], or IndexError when [int] accepts it. *)
Theorem prepare_features_time (gdf : list Row) (h m rest : string) :
  colon_free h -> colon_free m ->
  prepare_features int road_length gdf (h ++ String colon (m ++ String colon rest))
    = prepare_features int road_length gdf (h ++ String colon m) /\
  prepare_features int road_length gdf (h ++ String colon m)
    = (hour ← int h; minute ← int m;
       Ok (map (fun r => (hour, minute, road_length r)) gdf)) /\
  prepare_features int road_length gdf h
    = (hour ← int h; Raise IndexError).
Proof.
  intros Hh Hm.
  assert (H2 : split colon (h ++ String colon m) = [h; m]).
  { rewrite (split_at_colon h m Hh), (split_colon_free m Hm). reflexivity. }
  assert (H3 : split colon (h ++ String colon (m ++ String colon rest))
               = h :: m :: split colon rest).
  { rewrite (split_at_colon h _ Hh), (split_at_colon m rest Hm). reflexivity. }
  split; [|split].
  - now rewrite (features_of_pieces gdf _ h m _ H3), (features_of_pieces gdf _ h m _ H2).
  - exact (features_of_pieces gdf _ h m _ H2).
  - unfold prepare_features. fold colon. rewrite (split_colon_free h Hh). simpl.
    destruct (int h); reflexivity.
Qed.

End AnyLibrary.

Lemma prepare_features_time_witness :
  let int := fun s : string => if String.eqb s "09" then Ok 9%Z
                               else if String.eqb s "30" then Ok 30%Z
                               else Raise ValueError in
  prepare_features int (fun r : Q => r) [1; 2] "09:30:59"
  = prepare_features int (fun r : Q => r) [1; 2] "09:30".
Proof.
  intros int.
  apply (proj1 (prepare_features_time int (fun r : Q => r) [1; 2] "09" "30" "59"
                  ltac:(simpl; repeat split; discriminate)
                  ltac:(simpl; repeat split; discriminate))).
Defined.


End FeatureFacts.
